(** * LocationService and the map thunks: a shallow embedding

    The development follows the two TypeScript modules of the repository:
    the [LocationService] class (a process-wide singleton built from static
    fields, a platform geolocation watch and a list of subscriber callbacks)
    and the [updateUserLocation] and [fetchNearbyUsers] thunks.

    - JavaScript numbers that are only copied (latitude, longitude,
      accuracy) are binary64 floats; platform error codes and epoch
      milliseconds are integers.
    - The static fields of the class form the record [Service]; what the
      platform holds on behalf of the class (registered watches, lifecycle
      listeners, promises) forms the record [Platform]; together with the
      state of the client code and the trace of observable effects they
      form a [World], threaded through a state-and-exception monad [M].
    - An [async] method is split at its [await]s: the part that runs
      synchronously, and one continuation per suspension point, resumed by
      the event that settles the awaited promise. JavaScript runs one
      callback at a time, so each event is one atomic step.
    - The platform is the environment: it hands out fresh handles, delivers
      positions and errors to the watches that are registered, and answers
      permission requests; the clock reading and the random draw of a
      registration are inputs of the call.
    - Of the platform calls, [PermissionsAndroid.check],
      [PermissionsAndroid.request] and [AppState.addEventListener] may
      throw; [Geolocation.watchPosition], [Geolocation.clearWatch],
      [subscription.remove] and [Alert.alert] return normally.
    - A subscriber's handler is client code: it may read and write the
      client's own state and may throw; it does not call back into the
      service while it runs. The theorems that say what an event leaves
      alone are stated for the events during which no handler runs. *)

From Stdlib Require Import ZArith List String Bool Floats.
From Stdlib Require Import DecimalString DecimalZ.
Import ListNotations.
Open Scope string_scope.
Open Scope list_scope.

(** ** Data model: [types/user.ts] and the declarations of the service *)

Record UserLocation := mkUserLocation {
  latitude : float;
  longitude : float;
  accuracy : float;
  timestamp : Z  (* the time value of the [Date], epoch milliseconds *)
}.

Inductive LocationErrorType :=
| PERMISSION_DENIED
| LOCATION_UNAVAILABLE
| TIMEOUT
| UNKNOWN.

Record LocationError := mkLocationError {
  type : LocationErrorType;
  message : string;
  code : option Z  (* [code?: number] *)
}.

(** The object the platform hands to an error callback ([error: any]): the
    two properties the service reads, each possibly [undefined]. *)
Record GeoError := mkGeoError {
  error_code : option Z;
  error_message : option string
}.

(** The object the platform hands to a success callback. *)
Record GeoPosition := mkGeoPosition {
  coords_latitude : float;
  coords_longitude : float;
  coords_accuracy : float;
  position_timestamp : Z
}.

(** A value travelling through [throw] / [catch] or a promise rejection. *)
Inductive JsThrown :=
| ThrownError (msg : string)            (* an instance of [Error] *)
| ThrownLocationError (e : LocationError) (* the plain object built by the service *)
| ThrownValue (description : string).     (* any other value *)

(** [a || b] on an optional string: the empty string and [undefined] are
    the two falsy cases. *)
Definition or_else (a : option string) (b : string) : string :=
  match a with
  | Some s => if String.eqb s "" then b else s
  | None => b
  end.

(** ** Observable effects *)

Inductive LogArg :=
| LogText (text : string)
| LogThrown (v : JsThrown)
| LogGeoError (e : GeoError).

(** Observable effects, in the order they happen. *)
Inductive Effect :=
| ConsoleWarn (args : list LogArg)
| ConsoleError (args : list LogArg)
| Alerted (title text : string)            (* [Alert.alert(title, text, [{text: 'OK'}])] *)
| Invoked (handler : nat) (location : UserLocation)
| GeoWatchPosition (w : nat)
| GeoClearWatch (w : nat).

(** ** [mapGeolocationError] *)

Definition mapGeolocationError (error : GeoError) : LocationError :=
  match error_code error with
  | Some 1%Z =>
      {| type := PERMISSION_DENIED;
         message := "Location permission denied";
         code := error_code error |}
  | Some 2%Z =>
      {| type := LOCATION_UNAVAILABLE;
         message := "Location unavailable";
         code := error_code error |}
  | Some 3%Z =>
      {| type := TIMEOUT;
         message := "Location request timed out";
         code := error_code error |}
  | _ =>
      {| type := UNKNOWN;
         message := or_else (error_message error) "Unknown location error";
         code := error_code error |}
  end.

(** ** The map thunks: [createUserLocationWithTimestamp], [updateUserLocation] *)

(** [Omit<UserLocation, 'accuracy' | 'timestamp'>] *)
Record Coordinates := mkCoordinates {
  c_latitude : float;
  c_longitude : float
}.

(** [now] is the time value [new Date()] reads from the clock. *)
Definition createUserLocationWithTimestamp (now : Z) (location : Coordinates)
  : UserLocation :=
  {| latitude := c_latitude location;
     longitude := c_longitude location;
     accuracy := 0%float;
     timestamp := now |}.

(** The two ways a thunk created by [createAsyncThunk] settles. *)
Inductive ThunkResult (A : Type) :=
| Fulfilled (payload : A)
| RejectedWithValue (value : string).
Arguments Fulfilled {A} payload.
Arguments RejectedWithValue {A} value.

(** What [await userApi.updateLocation(userLocation)] does: it returns, or
    it throws the value the backend promise was rejected with. *)
Definition Backend := UserLocation -> option JsThrown.

(** The result of the payload creator, with what it wrote to the console. *)
Definition updateUserLocation (now : Z) (updateLocation : Backend)
    (locationData : Coordinates) : list Effect * ThunkResult UserLocation :=
  let userLocation := createUserLocationWithTimestamp now locationData in
  match updateLocation userLocation with
  | None => ([], Fulfilled userLocation)
  | Some error =>
      ([ConsoleError [LogText "Failed to update user location:"; LogThrown error]],
       RejectedWithValue
         match error with
         | ThrownError msg => msg
         | _ => "Failed to update location"
         end)
  end.

(** ** [fetchNearbyUsers] and its types *)

Record User := mkUser {
  user_id : string;
  user_name : string;
  user_email : string
}.

Record NearbyUsersRequest := mkNearbyUsersRequest {
  request_latitude : float;
  request_longitude : float;
  radius : float;
  limit : option float  (* [limit?: number] *)
}.

(** What [await userApi.getNearbyUsers(nearbyUsersRequest)] does: it
    returns the list of the backend, or it throws. *)
Definition NearbyBackend := NearbyUsersRequest -> list User + JsThrown.

Definition fetchNearbyUsers (getNearbyUsers : NearbyBackend)
    (nearbyUsersRequest : NearbyUsersRequest)
  : list Effect * ThunkResult (list User) :=
  match getNearbyUsers nearbyUsersRequest with
  | inl users => ([], Fulfilled users)
  | inr error =>
      ([ConsoleError [LogText "Failed to fetch nearby users:"; LogThrown error]],
       RejectedWithValue
         match error with
         | ThrownError msg => msg
         | _ => "Failed to fetch nearby users"
         end)
  end.

(** ** The world the service runs in *)

Section LocationService.

(** The state of the client code. *)
Variable W : Type.

Set Implicit Arguments.
Set Maximal Implicit Insertion.

(** A handler reads and writes the client's state and returns or throws;
    [hname] identifies the function in the trace. [LocationCallback] is the
    record pushed on [callbacks]. *)
Record Handler := mkHandler {
  hname : nat;
  hrun : UserLocation -> W -> W * option JsThrown
}.

Record LocationCallback := mkLocationCallback {
  id : string;
  callback : Handler
}.

(** The static fields of [LocationService]. *)
Record Service := mkService {
  watchId : option nat;
  callbacks : list LocationCallback;
  isInitialized : bool;
  appStateSubscription : option nat;
  lastKnownLocation : option UserLocation
}.

(** A promise is pending, fulfilled or rejected; its reaction is what the
    code that holds it attached: nothing inside the service (the promise
    was returned to client code), the rest of [initialize] after its
    [await], or [.catch(console.error)]. *)
Inductive PromiseState :=
| Pending
| Resolved
| Rejected (reason : JsThrown).

Inductive Reaction :=
| Unobserved
| ResumeInitialize (k : nat)
| CatchConsoleError.

Inductive OS := ios | android.

(** What the platform keeps for the service: the watches registered with
    [Geolocation.watchPosition] and not cleared (each with the promise whose
    [resolve] and [reject] its two callbacks close over), the listeners
    installed on [AppState], the promises created so far, and the calls of
    [initialize] suspended on the permission request. [appStateFault] is
    the behaviour of [AppState.addEventListener]: it returns a subscription
    ([None]) or throws the given value. *)
Record Platform := mkPlatform {
  os : OS;
  geoWatches : list (nat * nat);
  nextWatch : nat;
  appStateListeners : list nat;
  nextListener : nat;
  appStateFault : option JsThrown;
  promises : list (nat * (PromiseState * Reaction));
  nextPromise : nat;
  permissionPending : list nat
}.

Record World := mkWorld {
  service : Service;
  platform : Platform;
  client : W;
  trace : list Effect
}.

(** ** A state and exception monad *)

Inductive Result (A : Type) :=
| Returned (a : A)
| Threw (e : JsThrown).
Arguments Returned {A} a.
Arguments Threw {A} e.

Definition M (A : Type) : Type := World -> Result A * World.

Definition ret {A} (a : A) : M A := fun s => (Returned a, s).

Definition bind {A B} (m : M A) (f : A -> M B) : M B :=
  fun s =>
    match m s with
    | (Returned a, s') => f a s'
    | (Threw e, s') => (Threw e, s')
    end.

Definition throw {A} (e : JsThrown) : M A := fun s => (Threw e, s).

(** [try { m } catch (error) { h error }]: what [m] did before it threw
    stays done. *)
Definition try_catch {A} (m : M A) (h : JsThrown -> M A) : M A :=
  fun s =>
    match m s with
    | (Returned a, s') => (Returned a, s')
    | (Threw e, s') => h e s'
    end.

Notation "x <- m ;; f" := (bind m (fun x => f))
  (at level 61, m at next level, right associativity).
Notation "m ;; f" := (bind m (fun _ => f))
  (at level 61, right associativity).

Definition getService : M Service := fun s => (Returned (service s), s).

Definition getPlatform : M Platform := fun s => (Returned (platform s), s).

Definition modifyService (f : Service -> Service) : M unit :=
  fun s => (Returned tt,
            {| service := f (service s); platform := platform s;
               client := client s; trace := trace s |}).

Definition modifyPlatform (f : Platform -> Platform) : M unit :=
  fun s => (Returned tt,
            {| service := service s; platform := f (platform s);
               client := client s; trace := trace s |}).

Definition emit (e : Effect) : M unit :=
  fun s => (Returned tt,
            {| service := service s; platform := platform s;
               client := client s; trace := trace s ++ [e] |}).

(** [array.forEach(f)] *)
Fixpoint forEach {A} (f : A -> M unit) (l : list A) : M unit :=
  match l with
  | [] => ret tt
  | x :: rest => f x ;; forEach f rest
  end.

(** Assignments to the static fields. *)
Definition set_watchId (v : option nat) (sv : Service) : Service :=
  {| watchId := v; callbacks := callbacks sv; isInitialized := isInitialized sv;
     appStateSubscription := appStateSubscription sv;
     lastKnownLocation := lastKnownLocation sv |}.

Definition set_callbacks (v : list LocationCallback) (sv : Service) : Service :=
  {| watchId := watchId sv; callbacks := v; isInitialized := isInitialized sv;
     appStateSubscription := appStateSubscription sv;
     lastKnownLocation := lastKnownLocation sv |}.

Definition set_isInitialized (v : bool) (sv : Service) : Service :=
  {| watchId := watchId sv; callbacks := callbacks sv; isInitialized := v;
     appStateSubscription := appStateSubscription sv;
     lastKnownLocation := lastKnownLocation sv |}.

Definition set_appStateSubscription (v : option nat) (sv : Service) : Service :=
  {| watchId := watchId sv; callbacks := callbacks sv;
     isInitialized := isInitialized sv; appStateSubscription := v;
     lastKnownLocation := lastKnownLocation sv |}.

Definition set_lastKnownLocation (v : option UserLocation) (sv : Service) : Service :=
  {| watchId := watchId sv; callbacks := callbacks sv;
     isInitialized := isInitialized sv;
     appStateSubscription := appStateSubscription sv; lastKnownLocation := v |}.

(** ** The platform, as far as the service calls it *)

Fixpoint assoc {A} (k : nat) (l : list (nat * A)) : option A :=
  match l with
  | [] => None
  | (k', v) :: rest => if Nat.eqb k' k then Some v else assoc k rest
  end.

Definition registerWatch (w p : nat) (pf : Platform) : Platform :=
  {| os := os pf; geoWatches := geoWatches pf ++ [(w, p)]; nextWatch := S w;
     appStateListeners := appStateListeners pf; nextListener := nextListener pf;
     appStateFault := appStateFault pf; promises := promises pf;
     nextPromise := nextPromise pf; permissionPending := permissionPending pf |}.

Definition unregisterWatch (w : nat) (pf : Platform) : Platform :=
  {| os := os pf;
     geoWatches := filter (fun e => negb (Nat.eqb (fst e) w)) (geoWatches pf);
     nextWatch := nextWatch pf;
     appStateListeners := appStateListeners pf; nextListener := nextListener pf;
     appStateFault := appStateFault pf; promises := promises pf;
     nextPromise := nextPromise pf; permissionPending := permissionPending pf |}.

Definition installListener (l : nat) (pf : Platform) : Platform :=
  {| os := os pf; geoWatches := geoWatches pf; nextWatch := nextWatch pf;
     appStateListeners := appStateListeners pf ++ [l]; nextListener := S l;
     appStateFault := appStateFault pf; promises := promises pf;
     nextPromise := nextPromise pf; permissionPending := permissionPending pf |}.

Definition uninstallListener (l : nat) (pf : Platform) : Platform :=
  {| os := os pf; geoWatches := geoWatches pf; nextWatch := nextWatch pf;
     appStateListeners := filter (fun l' => negb (Nat.eqb l' l)) (appStateListeners pf);
     nextListener := nextListener pf;
     appStateFault := appStateFault pf; promises := promises pf;
     nextPromise := nextPromise pf; permissionPending := permissionPending pf |}.

Definition allocPromise (p : nat) (pf : Platform) : Platform :=
  {| os := os pf; geoWatches := geoWatches pf; nextWatch := nextWatch pf;
     appStateListeners := appStateListeners pf; nextListener := nextListener pf;
     appStateFault := appStateFault pf;
     promises := (p, (Pending, Unobserved)) :: promises pf;
     nextPromise := S p; permissionPending := permissionPending pf |}.

Definition updatePromise (p : nat) (cell : PromiseState * Reaction)
    (pf : Platform) : Platform :=
  {| os := os pf; geoWatches := geoWatches pf; nextWatch := nextWatch pf;
     appStateListeners := appStateListeners pf; nextListener := nextListener pf;
     appStateFault := appStateFault pf;
     promises := map (fun e => if Nat.eqb (fst e) p then (p, cell) else e)
                     (promises pf);
     nextPromise := nextPromise pf; permissionPending := permissionPending pf |}.

Definition set_permissionPending (v : list nat) (pf : Platform) : Platform :=
  {| os := os pf; geoWatches := geoWatches pf; nextWatch := nextWatch pf;
     appStateListeners := appStateListeners pf; nextListener := nextListener pf;
     appStateFault := appStateFault pf; promises := promises pf;
     nextPromise := nextPromise pf; permissionPending := v |}.

(** [Geolocation.watchPosition(success, error, options)]: the two callbacks
    close over the promise [p]; the handle is fresh. *)
Definition Geolocation_watchPosition (p : nat) : M nat :=
  pf <- getPlatform;;
  let w := nextWatch pf in
  modifyPlatform (registerWatch w p);;
  emit (GeoWatchPosition w);;
  ret w.

Definition Geolocation_clearWatch (w : nat) : M unit :=
  modifyPlatform (unregisterWatch w);;
  emit (GeoClearWatch w).

(** [AppState.addEventListener('change', listener)] *)
Definition AppState_addEventListener : M nat :=
  pf <- getPlatform;;
  match appStateFault pf with
  | Some e => throw e
  | None =>
      let l := nextListener pf in
      modifyPlatform (installListener l);;
      ret l
  end.

(** [subscription.remove()] *)
Definition subscription_remove (l : nat) : M unit :=
  modifyPlatform (uninstallListener l).

(** [new Promise(...)], and the attachment of a reaction by [await] or
    [.catch]. *)
Definition newPromise : M nat :=
  pf <- getPlatform;;
  let p := nextPromise pf in
  modifyPlatform (allocPromise p);;
  ret p.

Definition promiseState (p : nat) (s : World) : option PromiseState :=
  option_map fst (assoc p (promises (platform s))).

Definition attach (p : nat) (r : Reaction) : M unit :=
  pf <- getPlatform;;
  match assoc p (promises pf) with
  | Some (st, _) => modifyPlatform (updatePromise p (st, r))
  | None => ret tt
  end.

(** [resolve] and [reject] settle a pending promise and do nothing to a
    settled one; the reaction to run is returned. *)
Definition settle (p : nat) (outcome : PromiseState) : M (option Reaction) :=
  pf <- getPlatform;;
  match assoc p (promises pf) with
  | Some (Pending, r) => modifyPlatform (updatePromise p (outcome, r));; ret (Some r)
  | _ => ret None
  end.

Definition console_warn (args : list LogArg) : M unit := emit (ConsoleWarn args).
Definition console_error (args : list LogArg) : M unit := emit (ConsoleError args).

(** A call of a subscriber's handler. *)
Definition invoke (h : Handler) (location : UserLocation) : M unit :=
  fun s =>
    let out := hrun h location (client s) in
    (match snd out with
     | None => Returned tt
     | Some e => Threw e
     end,
     {| service := service s; platform := platform s; client := fst out;
        trace := trace s ++ [Invoked (hname h) location] |}).

(** ** The methods of [LocationService] *)

(** The answers of the platform to the permission calls: on iOS the
    success callback of [requestAuthorization] or its error callback with
    an error; on Android the outcomes of [PermissionsAndroid.check] and of
    [PermissionsAndroid.request]. *)
Inductive PermissionStatus := GRANTED | DENIED | NEVER_ASK_AGAIN.

Record PermissionAnswers := mkPermissionAnswers {
  ios_authorization : option GeoError;
  android_check : bool + JsThrown;
  android_request : PermissionStatus + JsThrown
}.

(** [await] of a platform promise whose outcome is known. *)
Definition awaited {A} (a : A + JsThrown) : M A :=
  match a with
  | inl v => ret v
  | inr e => throw e
  end.

Definition requestLocationPermission (answers : PermissionAnswers) : M bool :=
  pf <- getPlatform;;
  match os pf with
  | ios =>
      match ios_authorization answers with
      | None => ret true
      | Some error =>
          console_warn [LogText "iOS location permission denied:"; LogGeoError error];;
          ret false
      end
  | android =>
      try_catch
        (checkResult <- awaited (android_check answers);;
         if checkResult : bool then ret true
         else
           granted <- awaited (android_request answers);;
           ret match granted with GRANTED => true | _ => false end)
        (fun err =>
           console_warn [LogText "Error requesting location permission:"; LogThrown err];;
           ret false)
  end.

Definition stopLocationTracking : M unit :=
  sv <- getService;;
  match watchId sv with
  | Some w =>
      Geolocation_clearWatch w;;
      modifyService (set_watchId None)
  | None => ret tt
  end.

(** The synchronous part of [startLocationTracking]; the result is the
    promise it returns. *)
Definition startLocationTracking : M nat :=
  sv <- getService;;
  match watchId sv with
  | Some _ => stopLocationTracking
  | None => ret tt
  end;;
  p <- newPromise;;
  w <- Geolocation_watchPosition p;;
  modifyService (set_watchId (Some w));;
  ret p.

Definition notifyCallbacks (location : UserLocation) : M unit :=
  sv <- getService;;
  forEach
    (fun item =>
       try_catch
         (invoke (callback item) location)
         (fun error =>
            console_error [LogText "Error in location callback:"; LogThrown error]))
    (callbacks sv).

Definition showLocationError (error : LocationError) : M unit :=
  let title := "Location Error" in
  let text := message error in
  match type error with
  | PERMISSION_DENIED =>
      emit (Alerted "Permission Required"
              "Please enable location permissions in your device settings.")
  | LOCATION_UNAVAILABLE =>
      emit (Alerted title
              "Unable to determine your location. Please check your GPS settings.")
  | TIMEOUT =>
      emit (Alerted title "Location request timed out. Please try again.")
  | UNKNOWN => emit (Alerted title text)
  end.

Definition setupAppStateListener : M unit :=
  l <- AppState_addEventListener;;
  modifyService (set_appStateSubscription (Some l)).

Definition removeAppStateListener : M unit :=
  sv <- getService;;
  match appStateSubscription sv with
  | Some l =>
      subscription_remove l;;
      modifyService (set_appStateSubscription None)
  | None => ret tt
  end.

(** [initialize], cut at its two [await]s. [k] is the promise the call
    returned. The [catch] block logs and rethrows, which rejects [k]. *)
Definition initialize_catch (k : nat) (error : JsThrown) : M unit :=
  console_error [LogText "Failed to initialize LocationService:"; LogThrown error];;
  settle k (Rejected error);;
  ret tt.

Definition initialize : M nat :=
  k <- newPromise;;
  sv <- getService;;
  if isInitialized sv then
    console_warn [LogText "LocationService already initialized"];;
    settle k Resolved;;
    ret k
  else
    pf <- getPlatform;;
    modifyPlatform (set_permissionPending (permissionPending pf ++ [k]));;
    ret k.

(** After [await this.requestLocationPermission()]. *)
Definition initialize_afterPermission (k : nat) (hasPermission : bool) : M unit :=
  try_catch
    (if hasPermission then
       p <- startLocationTracking;;
       attach p (ResumeInitialize k)
     else throw (ThrownError "Location permission denied"))
    (initialize_catch k).

(** After [await this.startLocationTracking()]: [outcome] is the reason of
    the rejection, if the promise was rejected. *)
Definition initialize_afterTracking (k : nat) (outcome : option JsThrown) : M unit :=
  try_catch
    (match outcome with
     | Some reason => throw reason
     | None => ret tt
     end;;
     setupAppStateListener;;
     modifyService (set_isInitialized true);;
     settle k Resolved;;
     ret tt)
    (initialize_catch k).

(** The reaction attached to a promise runs when it settles. *)
Definition react (r : option Reaction) (outcome : option JsThrown) : M unit :=
  match r with
  | Some (ResumeInitialize k) => initialize_afterTracking k outcome
  | Some CatchConsoleError =>
      match outcome with
      | Some reason => console_error [LogThrown reason]
      | None => ret tt
      end
  | _ => ret tt
  end.

Definition resolve (p : nat) : M unit :=
  r <- settle p Resolved;;
  react r None.

Definition reject (p : nat) (reason : JsThrown) : M unit :=
  r <- settle p (Rejected reason);;
  react r (Some reason).

Definition toUserLocation (position : GeoPosition) : UserLocation :=
  {| latitude := coords_latitude position;
     longitude := coords_longitude position;
     accuracy := coords_accuracy position;
     timestamp := position_timestamp position |}.

(** The two callbacks [startLocationTracking] passes to [watchPosition];
    [p] is the promise whose [resolve] and [reject] they close over. *)
Definition watch_onPosition (p : nat) (position : GeoPosition) : M unit :=
  let location := toUserLocation position in
  modifyService (set_lastKnownLocation (Some location));;
  notifyCallbacks location;;
  resolve p.

Definition watch_onError (p : nat) (error : GeoError) : M unit :=
  console_error [LogText "Location tracking error:"; LogGeoError error];;
  let locationError := mapGeolocationError error in
  showLocationError locationError;;
  reject p (ThrownLocationError locationError).

(** The two callbacks [getCurrentLocation] passes to [getCurrentPosition];
    the result is how the returned promise settles. *)
Definition getCurrentLocation_onPosition (position : GeoPosition)
  : M (UserLocation + LocationError) :=
  let location := toUserLocation position in
  modifyService (set_lastKnownLocation (Some location));;
  ret (inl location).

Definition getCurrentLocation_onError (error : GeoError)
  : M (UserLocation + LocationError) :=
  console_error [LogText "Location error:"; LogGeoError error];;
  let locationError := mapGeolocationError error in
  ret (inr locationError).

(** [Date.now().toString()] *)
Definition toString (n : Z) : string := NilEmpty.string_of_int (Z.to_int n).

(** [s.substr(start, length)] for non-negative arguments *)
Definition substr (start length : nat) (s : string) : string :=
  substring start length s.

(** [addLocationCallback]: [now] is the reading of [Date.now()] and
    [random36] the text [Math.random().toString(36)] evaluates to. *)
Definition addLocationCallback (now : Z) (random36 : string) (handler : Handler)
  : M string :=
  let id := (toString now ++ substr 2 9 random36)%string in
  modifyService
    (fun sv => set_callbacks (callbacks sv ++ [mkLocationCallback id handler]) sv);;
  sv <- getService;;
  match lastKnownLocation sv with
  | Some location => invoke handler location
  | None => ret tt
  end;;
  ret id.

Definition removeLocationCallback (callbackId : string) : M unit :=
  modifyService
    (fun sv =>
       set_callbacks
         (filter (fun item => negb (String.eqb (id item) callbackId)) (callbacks sv))
         sv).

Definition clearAllCallbacks : M unit :=
  modifyService (set_callbacks []).

Definition getLastKnownLocation : M (option UserLocation) :=
  sv <- getService;;
  ret (lastKnownLocation sv).

Definition cleanup : M unit :=
  stopLocationTracking;;
  clearAllCallbacks;;
  removeAppStateListener;;
  modifyService (set_isInitialized false);;
  modifyService (set_lastKnownLocation None).

(** The listener [setupAppStateListener] installs. *)
Definition appStateListener (nextAppState : string) : M unit :=
  sv <- getService;;
  if String.eqb nextAppState "active" && isInitialized sv
     && match watchId sv with None => true | Some _ => false end
  then
    p <- startLocationTracking;;
    attach p CatchConsoleError
  else if String.eqb nextAppState "background" then ret tt
  else ret tt.

(** ** The service as an event-driven system *)

Inductive Call :=
| CInitialize
| CStartLocationTracking
| CStopLocationTracking
| CAddLocationCallback (now : Z) (random36 : string) (handler : Handler)
| CRemoveLocationCallback (callbackId : string)
| CClearAllCallbacks
| CCleanup.

(** What can happen next: client code calls a method; the platform answers
    a permission request of the call of [initialize] with promise [k];
    a registered watch delivers a position or an error; a one-shot fetch
    delivers; the application changes its lifecycle state. *)
Inductive Event :=
| Calls (c : Call)
| PermissionAnswered (k : nat) (answers : PermissionAnswers)
| WatchDelivers (w : nat) (d : GeoPosition + GeoError)
| CurrentPositionDelivers (d : GeoPosition + GeoError)
| AppStateChanges (nextAppState : string).

Definition call (c : Call) : M unit :=
  match c with
  | CInitialize => initialize;; ret tt
  | CStartLocationTracking => startLocationTracking;; ret tt
  | CStopLocationTracking => stopLocationTracking
  | CAddLocationCallback now random36 handler =>
      addLocationCallback now random36 handler;; ret tt
  | CRemoveLocationCallback callbackId => removeLocationCallback callbackId
  | CClearAllCallbacks => clearAllCallbacks
  | CCleanup => cleanup
  end.

Definition handle (e : Event) : M unit :=
  match e with
  | Calls c => call c
  | PermissionAnswered k answers =>
      pf <- getPlatform;;
      if existsb (Nat.eqb k) (permissionPending pf) then
        modifyPlatform
          (set_permissionPending
             (filter (fun k' => negb (Nat.eqb k' k)) (permissionPending pf)));;
        hasPermission <- requestLocationPermission answers;;
        initialize_afterPermission k hasPermission
      else ret tt
  | WatchDelivers w d =>
      pf <- getPlatform;;
      match assoc w (geoWatches pf) with
      | Some p =>
          match d with
          | inl position => watch_onPosition p position
          | inr error => watch_onError p error
          end
      | None => ret tt
      end
  | CurrentPositionDelivers d =>
      match d with
      | inl position => getCurrentLocation_onPosition position;; ret tt
      | inr error => getCurrentLocation_onError error;; ret tt
      end
  | AppStateChanges nextAppState =>
      pf <- getPlatform;;
      forEach (fun _ => appStateListener nextAppState) (appStateListeners pf)
  end.

(** One step of the system: an exception that escapes a call goes to the
    client, the state stays as the call left it. *)
Definition step (s : World) (e : Event) : World := snd (handle e s).

Definition run (events : list Event) (s : World) : World :=
  fold_left step events s.

(** The world when the module is loaded: the static initialisers of the
    class, and a platform that holds nothing. *)
Definition initialService : Service :=
  {| watchId := None; callbacks := []; isInitialized := false;
     appStateSubscription := None; lastKnownLocation := None |}.

Definition initialPlatform (o : OS) (fault : option JsThrown) : Platform :=
  {| os := o; geoWatches := []; nextWatch := 0;
     appStateListeners := []; nextListener := 0; appStateFault := fault;
     promises := []; nextPromise := 0; permissionPending := [] |}.

Definition initialWorld (o : OS) (fault : option JsThrown) (c : W) : World :=
  {| service := initialService; platform := initialPlatform o fault;
     client := c; trace := [] |}.

Definition reachable (s : World) : Prop :=
  exists o fault c events, s = run events (initialWorld o fault c).

(** ** Reading a trace *)

(** The handler calls recorded in a trace, in order. *)
Fixpoint invocations (t : list Effect) : list (nat * UserLocation) :=
  match t with
  | [] => []
  | Invoked h location :: rest => (h, location) :: invocations rest
  | _ :: rest => invocations rest
  end.

(** The client state and the effects of one fan-out over the list [l],
    written out handler by handler. *)
Fixpoint notify_client (l : list LocationCallback) (location : UserLocation)
    (c : W) : W :=
  match l with
  | [] => c
  | item :: rest =>
      notify_client rest location (fst (hrun (callback item) location c))
  end.

Fixpoint notify_trace (l : list LocationCallback) (location : UserLocation)
    (c : W) : list Effect :=
  match l with
  | [] => []
  | item :: rest =>
      let out := hrun (callback item) location c in
      Invoked (hname (callback item)) location ::
      match snd out with
      | Some error =>
          [ConsoleError [LogText "Error in location callback:"; LogThrown error]]
      | None => []
      end ++ notify_trace rest location (fst out)
  end.

(** ** Watches *)

(** The handles of the watches registered with the platform. *)
Definition activeWatches (s : World) : list nat :=
  map fst (geoWatches (platform s)).

(** The platform holds the watch stored in [watchId] and no other. *)
Definition one_watch (s : World) : Prop :=
  activeWatches s =
    match watchId (service s) with
    | Some w => [w]
    | None => []
    end.

(** The trace [t0] is an initial segment of the trace of [s]: what was
    observed up to [t0] happened before anything [s] adds. *)
Definition happened (t0 : list Effect) (s : World) : Prop :=
  exists t, trace s = t0 ++ t.

(** What settling a promise leaves alone: the subscribers, the last known
    position, the watch, the client state and the handler calls made. *)
Definition untouched (s s' : World) : Prop :=
  callbacks (service s') = callbacks (service s) /\
  lastKnownLocation (service s') = lastKnownLocation (service s) /\
  watchId (service s') = watchId (service s) /\
  geoWatches (platform s') = geoWatches (platform s) /\
  client s' = client s /\
  invocations (trace s') = invocations (trace s).

(** A sequence of registrations, each with its clock reading, its random
    draw and its handler. *)
Definition subscribeAll (regs : list (Z * string * Handler)) : list Event :=
  map (fun r => Calls (CAddLocationCallback (fst (fst r)) (snd (fst r)) (snd r)))
      regs.

(** The console lines of a trace that report a failed handler. *)
Definition is_callback_error (e : Effect) : bool :=
  match e with
  | ConsoleError (LogText "Error in location callback:" :: _) => true
  | _ => false
  end.

(** The state in which the answer to the permission request resumes the
    call of [initialize] made in [s]. *)
Definition resumed (s : World) : World :=
  let k := nextPromise (platform s) in
  mkWorld (service s)
    (set_permissionPending
       (filter (fun k' => negb (Nat.eqb k' k)) (permissionPending (platform s) ++ [k]))
       (set_permissionPending (permissionPending (platform s) ++ [k])
          (allocPromise k (platform s))))
    (client s) (trace s).

(** The alerts recorded in a trace, in order: title and text. *)
Fixpoint alerts (t : list Effect) : list (string * string) :=
  match t with
  | [] => []
  | Alerted title text :: rest => (title, text) :: alerts rest
  | _ :: rest => alerts rest
  end.

(** ** The lifecycle listener and the promises *)

(** [isInitialized] and [appStateSubscription] agree: the service is
    initialized exactly when it holds a lifecycle subscription, and the
    listener it holds is installed. *)
Definition lifecycle_consistent (s : World) : Prop :=
  match appStateSubscription (service s) with
  | Some l =>
      isInitialized (service s) = true /\ In l (appStateListeners (platform s))
  | None => isInitialized (service s) = false
  end.

(** The promises created so far are older than the next one. *)
Definition promises_fresh (s : World) : Prop :=
  forall q cell,
    assoc q (promises (platform s)) = Some cell -> q < nextPromise (platform s).


(** A computation that returns in every state: nothing thrown inside it
    reaches its caller. *)
Definition returns (A : Type) (m : M A) : Prop :=
  forall s, exists a s', m s = (Returned a, s').

(** A property of the world that a computation keeps. *)
Definition preserves (I : World -> Prop) (A : Type) (m : M A) : Prop :=
  forall s, I s -> I (snd (m s)).

Unset Maximal Implicit Insertion.
Unset Implicit Arguments.

End LocationService.

Arguments CInitialize {W}.
Arguments CStartLocationTracking {W}.
Arguments CStopLocationTracking {W}.
Arguments CRemoveLocationCallback {W} callbackId.
Arguments CClearAllCallbacks {W}.
Arguments CCleanup {W}.
Arguments PermissionAnswered {W} k answers.
Arguments WatchDelivers {W} w d.
Arguments CurrentPositionDelivers {W} d.
Arguments AppStateChanges {W} nextAppState.
Arguments mkService {W}.
Arguments initialService {W}.
Arguments Returned {A} a.
Arguments Threw {A} e.

(** ** Concrete inputs *)

(** A client without state, a handler that returns and one that throws. *)
Definition quiet (n : nat) : Handler unit :=
  mkHandler n (fun _ c => (c, None)).

Definition faulty (n : nat) : Handler unit :=
  mkHandler n (fun _ c => (c, Some (ThrownError "handler failed"))).

(** A fresh process on iOS. *)
Definition world0 : World unit := initialWorld ios None tt.

Definition granted : PermissionAnswers :=
  mkPermissionAnswers None (inl true) (inl GRANTED).

Definition refused : PermissionAnswers :=
  mkPermissionAnswers (Some (mkGeoError (Some 1%Z) None)) (inl false) (inl DENIED).

Definition fix0 : GeoPosition := mkGeoPosition 37 (-122) 5 1700000000000.

Definition gpsOff : GeoError := mkGeoError (Some 2%Z) (Some "No location provider").

(** The service after a subscriber registered, [initialize] ran and the
    watch delivered a first position. *)
Definition tracking : World unit :=
  run [Calls (CAddLocationCallback 1700000000000 "0.4fzyo82mvyr" (quiet 1));
       Calls CInitialize;
       PermissionAnswered 0 granted;
       WatchDelivers 0 (inl fix0)]
    world0.

(** Two more registrations, the first with a handler that throws. *)
Definition latecomers : list (Z * string * Handler unit) :=
  [(1700000000001%Z, "0.8h2kq0z5r1c", faulty 2);
   (1700000000002%Z, "0.1m9x7b3t4yd", quiet 3)].

(** [initialize] in a fresh process, permission granted, first delivery
    an error. *)
Definition failedInitialize : World unit :=
  run [Calls CInitialize;
       PermissionAnswered 0 granted;
       WatchDelivers 0 (inr gpsOff)]
    world0.

(** Two registrations in the same millisecond whose random draws differ
    only after the ninth base-36 digit. *)
Definition firstRegistration : Result string * World unit :=
  addLocationCallback 1700000000000 "0.4fzyo82mvyr" (quiet 1) world0.

Definition secondRegistration : Result string * World unit :=
  addLocationCallback 1700000000000 "0.4fzyo82mvyq" (quiet 2)
    (snd firstRegistration).


(** A client that counts the calls of its handlers; the second kind of
    handler throws after it has counted. *)
Definition counting (n : nat) : Handler nat :=
  mkHandler n (fun _ c => (S c, None)).

Definition countingThenThrowing (n : nat) : Handler nat :=
  mkHandler n (fun _ c => (S c, Some (ThrownError "handler failed"))).

Definition counted : World nat :=
  run [Calls (CAddLocationCallback 1700000000000 "0.4fzyo82mvyr" (counting 1));
       Calls (CAddLocationCallback 1700000000001 "0.8h2kq0z5r1c"
                (countingThenThrowing 2));
       Calls (CAddLocationCallback 1700000000002 "0.1m9x7b3t4yd" (counting 3))]
    (initialWorld ios None 0).

(** [startLocationTracking] called in a fresh process. *)
Definition started : World unit := snd (startLocationTracking world0).

(** Tracking stopped by the client while the service stays initialized. *)
Definition stopped : World unit := step tracking (Calls CStopLocationTracking).

(** The service after [cleanup]; then a new call of [initialize], the
    permission granted and a position delivered. *)
Definition cleaned : World unit := step tracking (Calls CCleanup).

Definition again : list (Event unit) :=
  [Calls CInitialize; PermissionAnswered 2 granted; WatchDelivers 1 (inl fix0)].

(** A backend that fails with an [Error] whose message is empty. *)
Definition failingBackend : NearbyBackend := fun _ => inr (ThrownError "").

Definition nearby : NearbyUsersRequest := mkNearbyUsersRequest 37 (-122) 500 None.

(** * Theorems *)

(** ** [mapGeolocationError] *)

(** Case analysis on the scrutinee of a [switch] over numerals. *)
Ltac switch_cases :=
  repeat match goal with
         | |- context [match ?x with _ => _ end] => destruct x
         end;
  try reflexivity.

Lemma or_else_truthy (s fallback : string) :
  s <> "" -> or_else (Some s) fallback = s.
Proof.
  intros Hs. unfold or_else.
  destruct (String.eqb_spec s ""); [contradiction | reflexivity].
Qed.

(** C2. The mapping from platform errors to [LocationError]s is a function
    defined on every platform error: code 1 yields PERMISSION_DENIED, code
    2 LOCATION_UNAVAILABLE, code 3 TIMEOUT, and every other code (also an
    absent one) UNKNOWN; an UNKNOWN result carries the platform message
    when there is one (a non-empty string, the reading JavaScript's [||]
    gives to presence) and ['Unknown location error'] otherwise; the
    platform code is kept in every case. *)
Theorem mapGeolocationError_total (error : GeoError) :
  code (mapGeolocationError error) = error_code error /\
  (error_code error = Some 1%Z ->
     mapGeolocationError error =
       mkLocationError PERMISSION_DENIED "Location permission denied" (Some 1%Z)) /\
  (error_code error = Some 2%Z ->
     mapGeolocationError error =
       mkLocationError LOCATION_UNAVAILABLE "Location unavailable" (Some 2%Z)) /\
  (error_code error = Some 3%Z ->
     mapGeolocationError error =
       mkLocationError TIMEOUT "Location request timed out" (Some 3%Z)) /\
  (error_code error <> Some 1%Z -> error_code error <> Some 2%Z ->
   error_code error <> Some 3%Z ->
     type (mapGeolocationError error) = UNKNOWN /\
     (forall m, error_message error = Some m -> m <> "" ->
        message (mapGeolocationError error) = m) /\
     (error_message error = None \/ error_message error = Some "" ->
        message (mapGeolocationError error) = "Unknown location error")).
Proof.
  destruct error as [c m]; simpl.
  split; [| split; [| split; [| split]]].
  - unfold mapGeolocationError; simpl. now switch_cases.
  - intros ->. reflexivity.
  - intros ->. reflexivity.
  - intros ->. reflexivity.
  - intros H1 H2 H3.
    assert (Hdef : mapGeolocationError (mkGeoError c m) =
                   mkLocationError UNKNOWN (or_else m "Unknown location error") c).
    { unfold mapGeolocationError; simpl. switch_cases; congruence. }
    rewrite Hdef; simpl. split; [reflexivity | split].
    + intros s -> Hs. now apply or_else_truthy.
    + intros [-> | ->]; reflexivity.
Qed.

Lemma mapGeolocationError_total_witness :
  type (mapGeolocationError (mkGeoError (Some 7%Z) (Some "boom"))) = UNKNOWN /\
  message (mapGeolocationError (mkGeoError (Some 7%Z) (Some "boom"))) = "boom".
Proof.
  destruct (mapGeolocationError_total (mkGeoError (Some 7%Z) (Some "boom")))
    as (_ & _ & _ & _ & H).
  destruct H as (Ht & Hm & _); simpl; try discriminate.
  split; [exact Ht | apply Hm; [reflexivity | discriminate]].
Defined.

(** ** [updateUserLocation] *)

(** C9. The thunk builds the position from the given latitude and
    longitude with accuracy 0 and the call time as timestamp; when the
    backend call returns, the thunk is fulfilled with that same position;
    when it throws, the thunk is rejected with a string: the message of the
    error when the thrown value is an [Error], and ['Failed to update
    location'] otherwise. *)
Theorem updateUserLocation_spec (now : Z) (updateLocation : Backend)
    (locationData : Coordinates) :
  let built := mkUserLocation (c_latitude locationData)
                 (c_longitude locationData) 0%float now in
  createUserLocationWithTimestamp now locationData = built /\
  match updateLocation built with
  | None =>
      snd (updateUserLocation now updateLocation locationData) = Fulfilled built
  | Some (ThrownError msg) =>
      snd (updateUserLocation now updateLocation locationData)
        = RejectedWithValue msg
  | Some _ =>
      snd (updateUserLocation now updateLocation locationData)
        = RejectedWithValue "Failed to update location"
  end.
Proof.
  simpl. split; [reflexivity |].
  unfold updateUserLocation, createUserLocationWithTimestamp.
  destruct (updateLocation _) as [[msg | e | d] |]; reflexivity.
Qed.

(** ** [fetchNearbyUsers] *)

(** X20. [fetchNearbyUsers] settles with the list of the backend, unchanged
    and with nothing written to the console, or is rejected with a
    string, after one console error that carries the thrown value: the
    message of the [Error] thrown (as it is, the empty message included:
    the fallback does not replace it), and the fixed text
    ['Failed to fetch nearby users'] for any other thrown value. *)
Theorem fetchNearbyUsers_outcome (getNearbyUsers : NearbyBackend)
    (request : NearbyUsersRequest) :
  (forall users,
     getNearbyUsers request = inl users ->
     fetchNearbyUsers getNearbyUsers request = ([], Fulfilled users)) /\
  (forall error,
     getNearbyUsers request = inr error ->
     fst (fetchNearbyUsers getNearbyUsers request)
       = [ConsoleError [LogText "Failed to fetch nearby users:"; LogThrown error]] /\
     (forall msg, error = ThrownError msg ->
        snd (fetchNearbyUsers getNearbyUsers request) = RejectedWithValue msg) /\
     ((forall msg, error <> ThrownError msg) ->
        snd (fetchNearbyUsers getNearbyUsers request)
          = RejectedWithValue "Failed to fetch nearby users")).
Proof.
  unfold fetchNearbyUsers. split.
  - intros users ->. reflexivity.
  - intros error ->. split; [reflexivity | split].
    + intros msg ->. reflexivity.
    + intros H. destruct error as [msg | e | d]; try reflexivity.
      exfalso. apply (H msg). reflexivity.
Qed.

Section Properties.

Variable W : Type.

Local Abbreviation World := (World W) (only parsing).
Local Abbreviation Service := (Service W) (only parsing).
Local Abbreviation Handler := (Handler W) (only parsing).
Local Abbreviation LocationCallback := (LocationCallback W) (only parsing).
Local Abbreviation M := (M W) (only parsing).
Local Abbreviation Call := (Call W) (only parsing).
Local Abbreviation Event := (Event W) (only parsing).

(** ** Fan-out to the subscribers *)

Ltac unfold_m :=
  unfold bind, ret, throw, try_catch, getService, getPlatform, modifyService,
    modifyPlatform, emit, console_warn, console_error, invoke.

Lemma forEach_notify (location : UserLocation) (l : list LocationCallback)
    (s : World) :
  forEach
    (fun item =>
       try_catch
         (invoke (callback item) location)
         (fun error =>
            console_error [LogText "Error in location callback:"; LogThrown error]))
    l s
  = (Returned tt,
     mkWorld (service s) (platform s)
       (notify_client l location (client s))
       (trace s ++ notify_trace l location (client s))).
Proof.
  revert s. induction l as [| item rest IH]; intros s.
  - simpl. unfold ret. rewrite app_nil_r. now destruct s.
  - simpl. unfold bind at 1. unfold try_catch, invoke, console_error, emit.
    destruct (snd (hrun (callback item) location (client s))) as [error |];
      rewrite IH; simpl; rewrite <- ?app_assoc; reflexivity.
Qed.

Lemma notifyCallbacks_run (location : UserLocation) (s : World) :
  notifyCallbacks location s
  = (Returned tt,
     mkWorld (service s) (platform s)
       (notify_client (callbacks (service s)) location (client s))
       (trace s ++ notify_trace (callbacks (service s)) location (client s))).
Proof.
  unfold notifyCallbacks, bind, getService. apply forEach_notify.
Qed.

Lemma invocations_app (t u : list Effect) :
  invocations (t ++ u) = invocations t ++ invocations u.
Proof.
  induction t as [| e t IH]; simpl; [reflexivity |].
  destruct e; simpl; rewrite IH; reflexivity.
Qed.

Lemma invocations_notify_trace (l : list LocationCallback)
    (location : UserLocation) (c : W) :
  invocations (notify_trace l location c)
  = map (fun item => (hname (callback item), location)) l.
Proof.
  revert c. induction l as [| item rest IH]; intros c; simpl; [reflexivity |].
  rewrite invocations_app, IH.
  destruct (snd (hrun (callback item) location c)); reflexivity.
Qed.

(** ** Properties kept by every computation *)

Section Preservation.

Variable I : World -> Prop.

Local Abbreviation preserves := (preserves I) (only parsing).

Lemma preserves_ret {A} (a : A) : preserves (ret a).
Proof. intros s H. exact H. Qed.

Lemma preserves_throw {A} (e : JsThrown) : preserves (throw (A := A) e).
Proof. intros s H. exact H. Qed.

Lemma preserves_bind {A B} (m : M A) (f : A -> M B) :
  preserves m -> (forall a, preserves (f a)) -> preserves (bind m f).
Proof.
  intros Hm Hf s H. unfold bind. specialize (Hm s H).
  destruct (m s) as [[a | e] s']; simpl in *; [now apply Hf | exact Hm].
Qed.

Lemma preserves_try_catch {A} (m : M A) (h : JsThrown -> M A) :
  preserves m -> (forall e, preserves (h e)) -> preserves (try_catch m h).
Proof.
  intros Hm Hh s H. unfold try_catch. specialize (Hm s H).
  destruct (m s) as [[a | e] s']; simpl in *; [exact Hm | now apply Hh].
Qed.

Lemma preserves_forEach {A} (f : A -> M unit) (l : list A) :
  (forall x, preserves (f x)) -> preserves (forEach f l).
Proof.
  intros Hf. induction l as [| x rest IH]; simpl.
  - apply preserves_ret.
  - apply preserves_bind; [apply Hf | intros _; exact IH].
Qed.

Lemma preserves_getService : preserves getService.
Proof. intros s H. exact H. Qed.

Lemma preserves_getPlatform : preserves getPlatform.
Proof. intros s H. exact H. Qed.

Lemma preserves_awaited {A} (a : A + JsThrown) : preserves (awaited a).
Proof. destruct a; [apply preserves_ret | apply preserves_throw]. Qed.

(** What the property has to allow: effects on the trace and on the
    client, assignments to the fields other than [watchId], platform
    bookkeeping other than the watches, and the two tracking methods. *)
Hypothesis I_emit : forall e, preserves (emit e).
Hypothesis I_invoke : forall h location, preserves (invoke h location).
Hypothesis I_service :
  forall f, (forall sv, watchId (f sv) = watchId sv) -> preserves (modifyService f).
Hypothesis I_platform :
  forall g, (forall pf, geoWatches (g pf) = geoWatches pf) ->
            preserves (modifyPlatform g).
Hypothesis I_start : preserves startLocationTracking.
Hypothesis I_stop : preserves stopLocationTracking.

Ltac preserved_step :=
  first
    [ apply preserves_ret | apply preserves_throw | apply preserves_getService
    | apply preserves_getPlatform | apply preserves_awaited
    | apply I_emit | apply I_invoke | apply I_start | apply I_stop
    | apply I_service; intros []; reflexivity
    | apply I_platform; intros []; reflexivity
    | apply preserves_bind; [| intros ?]
    | apply preserves_try_catch; [| intros ?]
    | apply preserves_forEach; intros ?
    | match goal with
      | |- preserves (match ?x with _ => _ end) => destruct x
      | |- preserves (if ?b then _ else _) => destruct b
      end ].

(** [preserved_by known]: the lemmas [known] where they apply, the
    structure of the computation elsewhere. *)
Ltac preserved_by known := repeat first [known | preserved_step].
Ltac preserved := preserved_by fail.

Lemma preserves_settle (p : nat) (outcome : PromiseState) :
  preserves (settle p outcome).
Proof. unfold settle. preserved. Qed.

Lemma preserves_attach (p : nat) (r : Reaction) : preserves (attach p r).
Proof. unfold attach. preserved. Qed.

Lemma preserves_notifyCallbacks (location : UserLocation) :
  preserves (notifyCallbacks location).
Proof. unfold notifyCallbacks, console_error. preserved. Qed.

Lemma preserves_showLocationError (error : LocationError) :
  preserves (showLocationError error).
Proof. unfold showLocationError. preserved. Qed.

Lemma preserves_initialize_catch (k : nat) (error : JsThrown) :
  preserves (initialize_catch k error).
Proof.
  unfold initialize_catch, console_error.
  preserved_by ltac:(apply preserves_settle).
Qed.

Lemma preserves_initialize : preserves initialize.
Proof.
  unfold initialize, newPromise, console_warn.
  preserved_by ltac:(apply preserves_settle).
Qed.

Lemma preserves_requestLocationPermission (answers : PermissionAnswers) :
  preserves (requestLocationPermission answers).
Proof. unfold requestLocationPermission, console_warn. preserved. Qed.

Lemma preserves_initialize_afterPermission (k : nat) (hasPermission : bool) :
  preserves (initialize_afterPermission k hasPermission).
Proof.
  unfold initialize_afterPermission.
  preserved_by
    ltac:(first [apply preserves_attach | apply preserves_initialize_catch]).
Qed.

Lemma preserves_initialize_afterTracking (k : nat) (outcome : option JsThrown) :
  preserves (initialize_afterTracking k outcome).
Proof.
  unfold initialize_afterTracking, setupAppStateListener, AppState_addEventListener.
  preserved_by
    ltac:(first [apply preserves_settle | apply preserves_initialize_catch]).
Qed.

Lemma preserves_react (r : option Reaction) (outcome : option JsThrown) :
  preserves (react r outcome).
Proof.
  unfold react, console_error.
  preserved_by ltac:(apply preserves_initialize_afterTracking).
Qed.

Lemma preserves_resolve (p : nat) : preserves (resolve p).
Proof.
  unfold resolve.
  preserved_by ltac:(first [apply preserves_settle | apply preserves_react]).
Qed.

Lemma preserves_reject (p : nat) (reason : JsThrown) :
  preserves (reject p reason).
Proof.
  unfold reject.
  preserved_by ltac:(first [apply preserves_settle | apply preserves_react]).
Qed.

Lemma preserves_watch_onPosition (p : nat) (position : GeoPosition) :
  preserves (watch_onPosition p position).
Proof.
  unfold watch_onPosition, resolve.
  preserved_by
    ltac:(first [apply preserves_notifyCallbacks | apply preserves_settle
                | apply preserves_react]).
Qed.

Lemma preserves_watch_onError (p : nat) (error : GeoError) :
  preserves (watch_onError p error).
Proof.
  unfold watch_onError, reject, console_error.
  preserved_by
    ltac:(first [apply preserves_showLocationError | apply preserves_settle
                | apply preserves_react]).
Qed.

Lemma preserves_cleanup : preserves cleanup.
Proof.
  unfold cleanup, clearAllCallbacks, removeAppStateListener, subscription_remove.
  preserved.
Qed.

Lemma preserves_appStateListener (nextAppState : string) :
  preserves (appStateListener nextAppState).
Proof.
  unfold appStateListener.
  preserved_by ltac:(apply preserves_attach).
Qed.

Lemma preserves_call (c : Call) : preserves (call c).
Proof.
  destruct c; simpl;
    unfold addLocationCallback, removeLocationCallback, clearAllCallbacks;
    preserved_by
      ltac:(first [apply preserves_initialize | apply preserves_cleanup]).
Qed.

Lemma preserves_handle (e : Event) : preserves (handle e).
Proof.
  destruct e; simpl;
    unfold getCurrentLocation_onPosition, getCurrentLocation_onError, console_error;
    preserved_by
      ltac:(first [ apply preserves_call | apply preserves_requestLocationPermission
                  | apply preserves_initialize_afterPermission
                  | apply preserves_watch_onPosition | apply preserves_watch_onError
                  | apply preserves_appStateListener ]).
Qed.

Lemma preserves_run (events : list Event) (s : World) :
  I s -> I (run events s).
Proof.
  revert s. induction events as [| e rest IH]; intros s H; simpl; [exact H |].
  apply IH. apply preserves_handle. exact H.
Qed.

End Preservation.

Local Abbreviation preserves := (preserves (W := W)) (only parsing).


(** ** Starting and stopping the watch *)

Lemma stopLocationTracking_some (s : World) (w : nat) :
  watchId (service s) = Some w ->
  stopLocationTracking s
  = (Returned tt,
     mkWorld (set_watchId None (service s)) (unregisterWatch w (platform s))
       (client s) (trace s ++ [GeoClearWatch w])).
Proof.
  intros Hw. unfold stopLocationTracking, Geolocation_clearWatch. unfold_m.
  simpl. rewrite Hw. reflexivity.
Qed.

Lemma stopLocationTracking_none (s : World) :
  watchId (service s) = None -> stopLocationTracking s = (Returned tt, s).
Proof.
  intros Hw. unfold stopLocationTracking. unfold_m. simpl. rewrite Hw.
  reflexivity.
Qed.

Lemma startLocationTracking_none (s : World) :
  watchId (service s) = None ->
  startLocationTracking s
  = (Returned (nextPromise (platform s)),
     mkWorld
       (set_watchId (Some (nextWatch (platform s))) (service s))
       (registerWatch (nextWatch (platform s)) (nextPromise (platform s))
          (allocPromise (nextPromise (platform s)) (platform s)))
       (client s)
       (trace s ++ [GeoWatchPosition (nextWatch (platform s))])).
Proof.
  intros Hw.
  unfold startLocationTracking, newPromise, Geolocation_watchPosition. unfold_m.
  simpl. rewrite Hw. reflexivity.
Qed.

Lemma startLocationTracking_some (s : World) (w : nat) :
  watchId (service s) = Some w ->
  startLocationTracking s
  = (Returned (nextPromise (platform s)),
     mkWorld
       (set_watchId (Some (nextWatch (platform s))) (service s))
       (registerWatch (nextWatch (platform s)) (nextPromise (platform s))
          (allocPromise (nextPromise (platform s))
             (unregisterWatch w (platform s))))
       (client s)
       (trace s ++ [GeoClearWatch w; GeoWatchPosition (nextWatch (platform s))])).
Proof.
  intros Hw.
  unfold startLocationTracking, stopLocationTracking, Geolocation_clearWatch,
    newPromise, Geolocation_watchPosition. unfold_m.
  simpl. rewrite Hw. simpl. rewrite Hw. simpl.
  rewrite <- app_assoc. reflexivity.
Qed.

(** Clearing the only watch leaves none. *)
Lemma unregister_only (l : list (nat * nat)) (w : nat) :
  map fst l = [w] ->
  filter (fun e => negb (Nat.eqb (fst e) w)) l = [].
Proof.
  destruct l as [| [w' p] [| e rest]]; simpl; try discriminate.
  intros H. injection H as ->. rewrite Nat.eqb_refl. reflexivity.
Qed.

Lemma one_watch_emit (e : Effect) : preserves one_watch (emit e).
Proof. intros s H. exact H. Qed.

Lemma one_watch_invoke (h : Handler) (location : UserLocation) :
  preserves one_watch (invoke h location).
Proof. intros s H. exact H. Qed.

Lemma one_watch_service (f : Service -> Service) :
  (forall sv, watchId (f sv) = watchId sv) ->
  preserves one_watch (modifyService f).
Proof.
  intros Hf s H. unfold one_watch, activeWatches in *. simpl.
  rewrite Hf. exact H.
Qed.

Lemma one_watch_platform (g : Platform -> Platform) :
  (forall pf, geoWatches (g pf) = geoWatches pf) ->
  preserves one_watch (modifyPlatform g).
Proof.
  intros Hg s H. unfold one_watch, activeWatches in *. simpl.
  rewrite Hg. exact H.
Qed.

Lemma one_watch_stop : preserves one_watch stopLocationTracking.
Proof.
  intros s H. destruct (watchId (service s)) as [w |] eqn:Hw.
  - rewrite (stopLocationTracking_some _ _ Hw).
    unfold one_watch, activeWatches in *. simpl.
    rewrite Hw in H. rewrite (unregister_only _ _ H). reflexivity.
  - rewrite (stopLocationTracking_none _ Hw). exact H.
Qed.

Lemma one_watch_start : preserves one_watch startLocationTracking.
Proof.
  intros s H. destruct (watchId (service s)) as [w |] eqn:Hw.
  - rewrite (startLocationTracking_some _ _ Hw).
    unfold one_watch, activeWatches in *. simpl.
    rewrite Hw in H. rewrite (unregister_only _ _ H). reflexivity.
  - rewrite (startLocationTracking_none _ Hw).
    unfold one_watch, activeWatches in *. simpl.
    rewrite Hw in H. rewrite map_app, H. reflexivity.
Qed.

Lemma one_watch_reachable (s : World) : reachable s -> one_watch s.
Proof.
  intros (o & fault & c & events & ->).
  apply (preserves_run one_watch one_watch_emit one_watch_invoke one_watch_service
           one_watch_platform one_watch_start one_watch_stop).
  reflexivity.
Qed.

Lemma reachable_step (s : World) (e : Event) :
  reachable s -> reachable (step s e).
Proof.
  intros (o & fault & c & events & ->).
  exists o, fault, c, (events ++ [e]).
  unfold run. rewrite fold_left_app. reflexivity.
Qed.

(** C3. At most one watch is ever active. In every state the system can
    reach, by any sequence of calls and platform events, the platform
    holds exactly the watch stored in [watchId] and no other, so [watchId]
    is non-null only while a watch is registered. There
    [startLocationTracking] clears the watch it finds (the [clearWatch]
    precedes the [watchPosition] in the trace) and leaves exactly the new
    handle; two calls in a row leave exactly one handle; and
    [stopLocationTracking] leaves none and [watchId] null. *)
Theorem at_most_one_watch (s : World) :
  reachable s ->
  one_watch s /\
  (let s1 := step s (Calls CStartLocationTracking) in
   activeWatches s1 = [nextWatch (platform s)] /\
   watchId (service s1) = Some (nextWatch (platform s)) /\
   trace s1 = trace s ++ map GeoClearWatch (activeWatches s)
                      ++ [GeoWatchPosition (nextWatch (platform s))]) /\
  (let s2 := run [Calls CStartLocationTracking; Calls CStartLocationTracking] s in
   activeWatches s2 = [S (nextWatch (platform s))] /\
   watchId (service s2) = Some (S (nextWatch (platform s)))) /\
  (let s3 := step s (Calls CStopLocationTracking) in
   activeWatches s3 = [] /\ watchId (service s3) = None).
Proof.
  intros Hr. pose proof (one_watch_reachable _ Hr) as H.
  assert (Hstart : forall s0 : World, one_watch s0 ->
            let s1 := step s0 (Calls CStartLocationTracking) in
            activeWatches s1 = [nextWatch (platform s0)] /\
            watchId (service s1) = Some (nextWatch (platform s0)) /\
            trace s1 = trace s0 ++ map GeoClearWatch (activeWatches s0)
                         ++ [GeoWatchPosition (nextWatch (platform s0))] /\
            nextWatch (platform s1) = S (nextWatch (platform s0))).
  { intros s0 H0. unfold step, handle, call, bind.
    destruct (watchId (service s0)) as [w |] eqn:Hw.
    - rewrite (startLocationTracking_some _ _ Hw).
      unfold one_watch, activeWatches in *. rewrite Hw in H0. simpl.
      rewrite (unregister_only _ _ H0), H0. repeat split; reflexivity.
    - rewrite (startLocationTracking_none _ Hw).
      unfold one_watch, activeWatches in *. rewrite Hw in H0. simpl.
      rewrite map_app, H0. repeat split; reflexivity. }
  split; [exact H | split; [| split]].
  - destruct (Hstart s H) as (A & B & C & _). repeat split; assumption.
  - simpl. destruct (Hstart s H) as (_ & _ & _ & Hn).
    assert (H1 : one_watch (step s (Calls CStartLocationTracking))).
    { apply one_watch_reachable, reachable_step, Hr. }
    destruct (Hstart _ H1) as (A & B & _). rewrite Hn in A, B.
    split; assumption.
  - simpl. unfold step, handle, call.
    destruct (watchId (service s)) as [w |] eqn:Hw.
    + rewrite (stopLocationTracking_some _ _ Hw).
      unfold one_watch, activeWatches in *. rewrite Hw in H. simpl.
      rewrite (unregister_only _ _ H). split; reflexivity.
    + rewrite (stopLocationTracking_none _ Hw).
      unfold one_watch in H. rewrite Hw in H. split; assumption.
Qed.


(** ** The trace only grows *)

Lemma happened_emit (t0 : list Effect) (e : Effect) :
  preserves (happened t0) (emit e).
Proof.
  intros s [t H]. exists (t ++ [e]). simpl. rewrite H. symmetry. apply app_assoc.
Qed.

Lemma happened_invoke (t0 : list Effect) (h : Handler) (location : UserLocation) :
  preserves (happened t0) (invoke h location).
Proof.
  intros s [t H]. exists (t ++ [Invoked (hname h) location]). simpl.
  rewrite H. symmetry. apply app_assoc.
Qed.

Lemma happened_service (t0 : list Effect) (f : Service -> Service) :
  preserves (happened t0) (modifyService f).
Proof. intros s H. exact H. Qed.

Lemma happened_platform (t0 : list Effect) (g : Platform -> Platform) :
  preserves (happened t0) (modifyPlatform g).
Proof. intros s H. exact H. Qed.

Lemma happened_stop (t0 : list Effect) :
  preserves (happened t0) stopLocationTracking.
Proof.
  intros s [t H]. destruct (watchId (service s)) as [w |] eqn:Hw.
  - rewrite (stopLocationTracking_some _ _ Hw). simpl.
    exists (t ++ [GeoClearWatch w]). rewrite H. symmetry. apply app_assoc.
  - rewrite (stopLocationTracking_none _ Hw). now exists t.
Qed.

Lemma happened_start (t0 : list Effect) :
  preserves (happened t0) startLocationTracking.
Proof.
  intros s [t H]. destruct (watchId (service s)) as [w |] eqn:Hw.
  - rewrite (startLocationTracking_some _ _ Hw). simpl.
    eexists. rewrite H. symmetry. apply app_assoc.
  - rewrite (startLocationTracking_none _ Hw). simpl.
    eexists. rewrite H. symmetry. apply app_assoc.
Qed.

Lemma happened_run (events : list Event) (s : World) :
  happened (trace s) (run events s).
Proof.
  apply (preserves_run (happened (trace s))
           (happened_emit _) (happened_invoke _)
           (fun f _ => happened_service _ f) (fun g _ => happened_platform _ g)
           (happened_start _) (happened_stop _)).
  exists []. symmetry. apply app_nil_r.
Qed.

(** ** Registration *)

Lemma addLocationCallback_run (now : Z) (random36 : string) (handler : Handler)
    (s : World) :
  let id := (toString now ++ substr 2 9 random36)%string in
  let registered :=
    set_callbacks (callbacks (service s) ++ [mkLocationCallback id handler])
      (service s) in
  addLocationCallback now random36 handler s
  = match lastKnownLocation (service s) with
    | Some location =>
        (match snd (hrun handler location (client s)) with
         | None => Returned id
         | Some e => Threw e
         end,
         mkWorld registered (platform s)
           (fst (hrun handler location (client s)))
           (trace s ++ [Invoked (hname handler) location]))
    | None => (Returned id, mkWorld registered (platform s) (client s) (trace s))
    end.
Proof.
  unfold addLocationCallback. unfold_m. simpl.
  destruct (lastKnownLocation (service s)) as [location |]; [| reflexivity].
  simpl. destruct (snd (hrun handler location (client s))); reflexivity.
Qed.

(** C5. When a last known position exists, [addLocationCallback] calls the
    new handler with exactly that position inside the call itself: the
    call is the one effect the registration adds to the trace, the client
    state the caller gets back is the one the handler left, and whatever
    happens afterwards (any later call or delivery) comes after it in the
    trace. When there is no last known position the registration calls
    nothing. *)
Theorem addLocationCallback_immediate_snapshot (now : Z) (random36 : string)
    (handler : Handler) (s : World) :
  let s' := snd (addLocationCallback now random36 handler s) in
  match lastKnownLocation (service s) with
  | Some location =>
      trace s' = trace s ++ [Invoked (hname handler) location] /\
      client s' = fst (hrun handler location (client s)) /\
      forall events,
        happened (trace s ++ [Invoked (hname handler) location]) (run events s')
  | None =>
      trace s' = trace s /\ client s' = client s /\
      fst (addLocationCallback now random36 handler s)
        = Returned (toString now ++ substr 2 9 random36)%string
  end.
Proof.
  simpl. rewrite addLocationCallback_run.
  destruct (lastKnownLocation (service s)) as [location |]; simpl.
  - repeat split.
    intros events.
    set (s' := mkWorld _ _ _ _).
    change (trace s ++ [Invoked (hname handler) location]) with (trace s').
    apply happened_run.
  - repeat split.
Qed.


(** ** Settling the promise of a watch *)

Ltac unfold_service :=
  unfold resolve, reject, react, initialize_afterTracking, initialize_catch,
    setupAppStateListener, AppState_addEventListener, showLocationError,
    settle, attach;
  unfold_m.

(** Case analysis on every [match] the goal is stuck on, innermost first. *)
Ltac cases :=
  repeat (simpl;
          match goal with
          | |- context [match ?x with _ => _ end] =>
              lazymatch x with
              | context [match ?y with _ => _ end] => fail
              | _ => destruct x eqn:?
              end
          end);
  simpl.

Lemma resolve_untouched (p : nat) (s : World) :
  untouched s (snd (resolve p s)).
Proof.
  unfold untouched. unfold_service. cases;
    rewrite ?invocations_app, ?app_nil_r; repeat split.
Qed.

Lemma reject_untouched (p : nat) (reason : JsThrown) (s : World) :
  untouched s (snd (reject p reason s)).
Proof.
  unfold untouched. unfold_service. cases;
    rewrite ?invocations_app, ?app_nil_r; repeat split.
Qed.


(** ** A position delivered by the watch *)

Lemma watch_onPosition_run (p : nat) (position : GeoPosition) (s : World) :
  let location := toUserLocation position in
  watch_onPosition p position s
  = resolve p
      (mkWorld (set_lastKnownLocation (Some location) (service s)) (platform s)
         (notify_client (callbacks (service s)) location (client s))
         (trace s ++ notify_trace (callbacks (service s)) location (client s))).
Proof.
  simpl. unfold watch_onPosition.
  unfold bind at 1. unfold bind at 1. unfold modifyService at 1.
  rewrite notifyCallbacks_run. destruct s as [[] ? ? ?]. reflexivity.
Qed.

Lemma watch_onPosition_notifies (p : nat) (position : GeoPosition) (s : World) :
  let location := toUserLocation position in
  let s' := snd (watch_onPosition p position s) in
  lastKnownLocation (service s') = Some location /\
  callbacks (service s') = callbacks (service s) /\
  invocations (trace s')
  = invocations (trace s)
    ++ map (fun item => (hname (callback item), location)) (callbacks (service s)).
Proof.
  simpl. rewrite watch_onPosition_run.
  match goal with
  | |- context [resolve p ?s1] =>
      destruct (resolve_untouched p s1) as (Hc & Hl & _ & _ & _ & Hi)
  end.
  rewrite Hc, Hl, Hi. simpl.
  rewrite invocations_app, invocations_notify_trace.
  destruct s as [[] ? ? ?]. repeat split.
Qed.

(** C10. The call of the new handler inside [addLocationCallback] is not
    guarded: when a last known position exists and the handler throws on
    it, [addLocationCallback] throws that same value to its caller, where
    [notifyCallbacks] on the same subscribers returns normally; the
    handler is nevertheless on the subscription list (it was pushed
    before the call), and the next position delivered by a registered
    watch calls it, after the handlers registered before it. *)
Theorem addLocationCallback_throwing_handler (now : Z) (random36 : string)
    (handler : Handler) (s : World) (location : UserLocation) (e : JsThrown) :
  lastKnownLocation (service s) = Some location ->
  snd (hrun handler location (client s)) = Some e ->
  let r := addLocationCallback now random36 handler s in
  let id := (toString now ++ substr 2 9 random36)%string in
  fst r = Threw e /\
  callbacks (service (snd r))
    = callbacks (service s) ++ [mkLocationCallback id handler] /\
  fst (notifyCallbacks location (snd r)) = Returned tt /\
  forall w p position,
    assoc w (geoWatches (platform (snd r))) = Some p ->
    invocations (trace (step (snd r) (WatchDelivers w (inl position))))
    = invocations (trace (snd r))
      ++ map (fun item => (hname (callback item), toUserLocation position))
           (callbacks (service s))
      ++ [(hname handler, toUserLocation position)].
Proof.
  intros Hl He. simpl. rewrite addLocationCallback_run, Hl, He. simpl.
  split; [reflexivity | split; [reflexivity | split]].
  - rewrite notifyCallbacks_run. reflexivity.
  - intros w p position Hw.
    unfold step, handle. unfold bind at 1. unfold getPlatform at 1. simpl.
    rewrite Hw.
    match goal with
    | |- context [watch_onPosition p position ?s1] =>
        destruct (watch_onPosition_notifies p position s1) as (_ & _ & Hi)
    end.
    rewrite Hi. simpl. rewrite map_app. reflexivity.
Qed.


(** ** Registrations followed by a delivery *)

Lemma step_addLocationCallback (now : Z) (random36 : string) (handler : Handler)
    (s : World) :
  step s (Calls (CAddLocationCallback now random36 handler))
  = snd (addLocationCallback now random36 handler s).
Proof.
  unfold step, handle, call, bind, ret.
  destruct (addLocationCallback now random36 handler s) as [[i | e] s'];
    reflexivity.
Qed.

Lemma subscribeAll_run (regs : list (Z * string * Handler)) (s : World) :
  callbacks (service (run (subscribeAll regs) s))
  = callbacks (service s)
    ++ map (fun r =>
              mkLocationCallback
                (toString (fst (fst r)) ++ substr 2 9 (snd (fst r)))%string (snd r))
         regs /\
  platform (run (subscribeAll regs) s) = platform s.
Proof.
  revert s. induction regs as [| [[now random36] handler] rest IH]; intros s.
  - simpl. rewrite app_nil_r. split; reflexivity.
  - change (run (subscribeAll ((now, random36, handler) :: rest)) s)
      with (run (subscribeAll rest)
              (step s (Calls (CAddLocationCallback now random36 handler)))).
    rewrite step_addLocationCallback.
    destruct (IH (snd (addLocationCallback now random36 handler s))) as [Hc Hp].
    rewrite Hc, Hp, addLocationCallback_run. simpl.
    destruct (lastKnownLocation (service s)); simpl; rewrite <- app_assoc;
      split; reflexivity.
Qed.

(** C1. For every list of registered subscriptions and every position,
    [notifyCallbacks] returns normally and calls the handler of every
    registered subscription exactly once, with that position, in the order
    of the list, whatever the handlers do: the state it leaves is the one
    reached by running the handlers one after the other, each on the
    client state the one before it left (also when that one threw); the
    effects are the calls and, after each handler that throws, the console
    error that reports it; the static fields and the platform are not
    touched. The list is in registration order: after any sequence of
    registrations, a position delivered by a registered watch is stored as
    last known, and then the subscribers present before are called once
    each, followed by the newly registered ones once each in the order of
    their registration; the client state after the delivery is the one
    these calls leave, and their effects follow the trace of before the
    delivery without a gap. *)
Theorem notifyCallbacks_each_once_in_order (location : UserLocation) (s : World) :
  (notifyCallbacks location s
     = (Returned tt,
        mkWorld (service s) (platform s)
          (notify_client (callbacks (service s)) location (client s))
          (trace s ++ notify_trace (callbacks (service s)) location (client s))) /\
   invocations (notify_trace (callbacks (service s)) location (client s))
     = map (fun item => (hname (callback item), location)) (callbacks (service s)) /\
   Forall (fun e => is_callback_error e = true \/
                    exists h, e = Invoked h location)
     (notify_trace (callbacks (service s)) location (client s))) /\
  (forall regs w p position,
     assoc w (geoWatches (platform s)) = Some p ->
     let s1 := run (subscribeAll regs) s in
     let s2 := step s1 (WatchDelivers w (inl position)) in
     lastKnownLocation (service s2) = Some (toUserLocation position) /\
     invocations (trace s2)
     = invocations (trace s1)
       ++ map (fun item => (hname (callback item), toUserLocation position))
            (callbacks (service s))
       ++ map (fun r => (hname (snd r), toUserLocation position)) regs /\
     callbacks (service s1)
     = callbacks (service s)
       ++ map (fun r =>
                 mkLocationCallback
                   (toString (fst (fst r)) ++ substr 2 9 (snd (fst r)))%string
                   (snd r))
            regs /\
     client s2
     = notify_client (callbacks (service s1)) (toUserLocation position) (client s1) /\
     happened
       (trace s1
        ++ notify_trace (callbacks (service s1)) (toUserLocation position) (client s1))
       s2).
Proof.
  split.
  - split; [apply notifyCallbacks_run | split].
    + apply invocations_notify_trace.
    + generalize (client s).
      induction (callbacks (service s)) as [| item rest IH];
        intros c; simpl; constructor.
      * right. eexists. reflexivity.
      * apply Forall_app. split; [| apply IH].
        destruct (snd (hrun (callback item) location c)); constructor.
        -- left. reflexivity.
        -- constructor.
  - intros regs w p position Hw s1 s2.
    destruct (subscribeAll_run regs s) as [Hc Hp]. fold s1 in Hc, Hp.
    assert (Hs2 : s2 = snd (watch_onPosition p position s1)).
    { unfold s2, step, handle, bind, getPlatform. simpl. rewrite Hp, Hw.
      reflexivity. }
    destruct (watch_onPosition_notifies p position s1) as (Hl & _ & Hi).
    split; [rewrite Hs2; exact Hl |].
    split; [rewrite Hs2, Hi, Hc, map_app, map_map; reflexivity |].
    split; [exact Hc |].
    rewrite Hs2, watch_onPosition_run.
    set (s1' := mkWorld _ _ _ _).
    split.
    + destruct (resolve_untouched p s1') as (_ & _ & _ & _ & Hcl & _).
      rewrite Hcl. reflexivity.
    + assert (Hkeep : preserves (happened (trace s1')) (resolve p)).
      { apply preserves_resolve.
        - apply happened_emit.
        - intros f _. apply happened_service.
        - intros g _. apply happened_platform. }
      apply Hkeep. exists []. symmetry. apply app_nil_r.
Qed.

(** ** Promises *)

Lemma assoc_update_eq {A} (p : nat) (cell c : A) (l : list (nat * A)) :
  assoc p l = Some c ->
  assoc p (map (fun e => if Nat.eqb (fst e) p then (p, cell) else e) l)
  = Some cell.
Proof.
  induction l as [| [k v] rest IH]; simpl; [discriminate |].
  destruct (Nat.eqb k p) eqn:Hk; simpl.
  - intros _. rewrite Nat.eqb_refl. reflexivity.
  - rewrite Hk. exact IH.
Qed.

Lemma assoc_update_neq {A} (p q : nat) (cell : A) (l : list (nat * A)) :
  q <> p ->
  assoc q (map (fun e => if Nat.eqb (fst e) p then (p, cell) else e) l)
  = assoc q l.
Proof.
  intros Hne. induction l as [| [k v] rest IH]; simpl; [reflexivity |].
  destruct (Nat.eqb k p) eqn:Hk; simpl.
  - apply Nat.eqb_eq in Hk. subst k.
    destruct (Nat.eqb_spec p q) as [-> | _]; [contradiction | exact IH].
  - rewrite IH. reflexivity.
Qed.

Lemma settle_pending (p : nat) (outcome : PromiseState) (r : Reaction) (s : World) :
  assoc p (promises (platform s)) = Some (Pending, r) ->
  settle p outcome s
  = (Returned (Some r),
     mkWorld (service s) (updatePromise p (outcome, r) (platform s))
       (client s) (trace s)).
Proof. intros H. unfold settle. unfold_m. simpl. rewrite H. reflexivity. Qed.

(** Settling leaves a settled promise as it is. *)
Lemma settle_keeps (k p : nat) (outcome st : PromiseState) (s : World) :
  promiseState p s = Some st -> st <> Pending ->
  promiseState p (snd (settle k outcome s)) = Some st.
Proof.
  intros H Hst. unfold settle. unfold_m. simpl.
  destruct (assoc k (promises (platform s))) as [[[| |] r] |] eqn:Hk;
    simpl; try exact H.
  unfold promiseState in *. simpl.
  destruct (Nat.eq_dec p k) as [-> | Hne].
  - rewrite Hk in H. simpl in H. congruence.
  - rewrite assoc_update_neq by exact Hne. exact H.
Qed.

Lemma initialize_catch_rejects (k : nat) (error : JsThrown) (r : Reaction)
    (s : World) :
  assoc k (promises (platform s)) = Some (Pending, r) ->
  initialize_catch k error s
  = (Returned tt,
     mkWorld (service s) (updatePromise k (Rejected error, r) (platform s))
       (client s)
       (trace s ++ [ConsoleError [LogText "Failed to initialize LocationService:";
                                  LogThrown error]])).
Proof.
  intros H. unfold initialize_catch, settle. unfold_m. simpl. rewrite H.
  reflexivity.
Qed.

(** The rejection of a pending promise is final, whatever reacts to it. *)
Lemma reject_rejects (p : nat) (reason : JsThrown) (r : Reaction) (s : World) :
  assoc p (promises (platform s)) = Some (Pending, r) ->
  promiseState p (snd (reject p reason s)) = Some (Rejected reason).
Proof.
  intros H. unfold reject. unfold bind at 1. rewrite (settle_pending _ _ _ _ H).
  set (s1 := mkWorld _ _ _ _).
  assert (H1 : promiseState p s1 = Some (Rejected reason)).
  { unfold promiseState, s1. simpl. rewrite (assoc_update_eq _ _ _ _ H). reflexivity. }
  destruct r as [| k |]; simpl; try exact H1.
  unfold initialize_afterTracking, initialize_catch, console_error.
  unfold try_catch, bind, throw, emit, ret. simpl.
  match goal with
  | |- context [settle k ?o ?s2] =>
      pose proof (settle_keeps k p o (Rejected reason) s2) as Hk;
      destruct (settle k o s2) as [[a | e] s3]
  end; simpl in *; apply Hk; try exact H1; discriminate.
Qed.

Lemma watch_onError_run (p : nat) (error : GeoError) (s : World) :
  watch_onError p error s
  = reject p (ThrownLocationError (mapGeolocationError error))
      (snd (showLocationError (mapGeolocationError error)
              (mkWorld (service s) (platform s) (client s)
                 (trace s ++ [ConsoleError [LogText "Location tracking error:";
                                            LogGeoError error]])))).
Proof.
  unfold watch_onError, console_error.
  unfold bind at 1. unfold emit at 1. unfold bind at 1.
  unfold showLocationError.
  destruct (type (mapGeolocationError error)); reflexivity.
Qed.


(** ** An error delivered by the watch *)

Lemma reject_happened (t0 : list Effect) (p : nat) (reason : JsThrown) :
  preserves (happened t0) (reject p reason).
Proof.
  apply preserves_reject.
  - apply happened_emit.
  - intros f _. apply happened_service.
  - intros g _. apply happened_platform.
Qed.

(** What [startLocationTracking] sets up: the new watch is registered with
    the promise the call returns, and that promise is pending. *)
Lemma startLocationTracking_registers (s : World) :
  one_watch s ->
  let r := startLocationTracking s in
  fst r = Returned (nextPromise (platform s)) /\
  assoc (nextWatch (platform s)) (geoWatches (platform (snd r)))
    = Some (nextPromise (platform s)) /\
  assoc (nextPromise (platform s)) (promises (platform (snd r)))
    = Some (Pending, Unobserved) /\
  lastKnownLocation (service (snd r)) = lastKnownLocation (service s).
Proof.
  intros H. simpl. unfold one_watch, activeWatches in H.
  destruct (watchId (service s)) as [w |] eqn:Hw.
  - rewrite (startLocationTracking_some _ _ Hw). simpl.
    rewrite (unregister_only _ _ H). simpl. rewrite !Nat.eqb_refl.
    repeat split.
  - rewrite (startLocationTracking_none _ Hw). simpl.
    apply map_eq_nil in H. rewrite H. simpl. rewrite !Nat.eqb_refl.
    repeat split.
Qed.

(** C8. [startLocationTracking] returns a pending promise and registers
    a watch whose callbacks settle it. When such a watch, its promise
    still pending (no delivery has settled it yet: this is the first one),
    delivers an error with platform code 2, that promise is rejected with
    the [LocationError] of type LOCATION_UNAVAILABLE, the error is logged
    and then an alert is shown with the GPS message, no subscriber handler
    is called, and the last known position stays what it was. *)
Theorem first_delivery_unavailable (s : World) (error : GeoError) :
  error_code error = Some 2%Z ->
  (one_watch s ->
   fst (startLocationTracking s) = Returned (nextPromise (platform s)) /\
   assoc (nextWatch (platform s))
     (geoWatches (platform (snd (startLocationTracking s))))
     = Some (nextPromise (platform s)) /\
   assoc (nextPromise (platform s))
     (promises (platform (snd (startLocationTracking s))))
     = Some (Pending, Unobserved)) /\
  (forall w p r,
     assoc w (geoWatches (platform s)) = Some p ->
     assoc p (promises (platform s)) = Some (Pending, r) ->
     let s' := step s (WatchDelivers w (inr error)) in
     promiseState p s'
       = Some (Rejected (ThrownLocationError
                 (mkLocationError LOCATION_UNAVAILABLE "Location unavailable"
                    (Some 2%Z)))) /\
     happened
       (trace s ++
          [ConsoleError [LogText "Location tracking error:"; LogGeoError error];
           Alerted "Location Error"
             "Unable to determine your location. Please check your GPS settings."])
       s' /\
     invocations (trace s') = invocations (trace s) /\
     client s' = client s /\
     lastKnownLocation (service s') = lastKnownLocation (service s)).
Proof.
  intros Hc. split.
  { intros H. destruct (startLocationTracking_registers s H) as (A & B & C & _).
    repeat split; assumption. }
  intros w p r Hw Hp s'.
  set (unavailable := mkLocationError LOCATION_UNAVAILABLE "Location unavailable"
                        (Some 2%Z)).
  set (s1 := mkWorld (service s) (platform s) (client s)
               (trace s ++
                [ConsoleError [LogText "Location tracking error:"; LogGeoError error];
                 Alerted "Location Error"
                   "Unable to determine your location. Please check your GPS settings."])).
  assert (Hs' : s' = snd (reject p (ThrownLocationError unavailable) s1)).
  { unfold s', step, handle, bind, getPlatform. simpl. rewrite Hw.
    fold (bind (W := W) (A := unit) (B := unit)).
    rewrite watch_onError_run.
    assert (Hm : mapGeolocationError error = unavailable)
      by (unfold mapGeolocationError; rewrite Hc; reflexivity).
    rewrite Hm. unfold showLocationError, emit, s1. simpl.
    rewrite <- app_assoc. reflexivity. }
  clearbody s'. subst s'.
  split; [| split].
  - apply (reject_rejects _ _ r). exact Hp.
  - apply reject_happened. exists []. symmetry. apply app_nil_r.
  - destruct (reject_untouched p (ThrownLocationError unavailable) s1)
      as (_ & Hl & _ & _ & Hcl & Hi).
    rewrite Hl, Hcl, Hi. unfold s1. simpl.
    rewrite !invocations_app. simpl. rewrite !app_nil_r. repeat split.
Qed.

(** ** [initialize], phase by phase *)

(** The permission request always returns, touches nothing but the console,
    and its result depends on the state through [Platform.OS] only. *)
Lemma requestLocationPermission_run (answers : PermissionAnswers) (s : World) :
  exists b t,
    invocations t = [] /\
    forall s0 : World, os (platform s0) = os (platform s) ->
      requestLocationPermission answers s0
      = (Returned b,
         mkWorld (service s0) (platform s0) (client s0) (trace s0 ++ t)).
Proof.
  destruct answers as [auth check request].
  unfold requestLocationPermission, awaited, console_warn. unfold_m. simpl.
  destruct (os (platform s)) eqn:Hos.
  - destruct auth as [error |].
    + exists false, [ConsoleWarn [LogText "iOS location permission denied:";
                                  LogGeoError error]].
      split; [reflexivity |]. intros s0 ->. reflexivity.
    + exists true, []. split; [reflexivity |]. intros s0 ->.
      rewrite app_nil_r. now destruct s0.
  - destruct check as [[|] | err].
    + exists true, []. split; [reflexivity |]. intros s0 ->.
      rewrite app_nil_r. now destruct s0.
    + destruct request as [granted | err].
      * exists (match granted with GRANTED => true | _ => false end), [].
        split; [reflexivity |]. intros s0 ->.
        rewrite app_nil_r. now destruct s0.
      * exists false, [ConsoleWarn [LogText "Error requesting location permission:";
                                    LogThrown err]].
        split; [reflexivity |]. intros s0 ->. reflexivity.
    + exists false, [ConsoleWarn [LogText "Error requesting location permission:";
                                  LogThrown err]].
      split; [reflexivity |]. intros s0 ->. reflexivity.
Qed.

Lemma initialize_already (s : World) :
  isInitialized (service s) = true ->
  initialize s
  = (Returned (nextPromise (platform s)),
     mkWorld (service s)
       (updatePromise (nextPromise (platform s)) (Resolved, Unobserved)
          (allocPromise (nextPromise (platform s)) (platform s)))
       (client s)
       (trace s ++ [ConsoleWarn [LogText "LocationService already initialized"]])).
Proof.
  intros H. unfold initialize, newPromise, settle, console_warn. unfold_m.
  simpl. rewrite H. simpl. rewrite Nat.eqb_refl. reflexivity.
Qed.

Lemma initialize_suspends (s : World) :
  isInitialized (service s) = false ->
  initialize s
  = (Returned (nextPromise (platform s)),
     mkWorld (service s)
       (set_permissionPending
          (permissionPending (platform s) ++ [nextPromise (platform s)])
          (allocPromise (nextPromise (platform s)) (platform s)))
       (client s) (trace s)).
Proof.
  intros H. unfold initialize, newPromise. unfold_m. simpl. rewrite H.
  reflexivity.
Qed.

Lemma existsb_pending (k : nat) (l : list nat) :
  existsb (Nat.eqb k) (l ++ [k]) = true.
Proof.
  rewrite existsb_app. simpl. rewrite Nat.eqb_refl. apply orb_true_r.
Qed.

Lemma answered_run (s : World) (answers : PermissionAnswers) (b : bool)
    (t : list Effect) :
  isInitialized (service s) = false ->
  (forall s0 : World, os (platform s0) = os (platform s) ->
     requestLocationPermission answers s0
     = (Returned b, mkWorld (service s0) (platform s0) (client s0) (trace s0 ++ t))) ->
  run [Calls CInitialize; PermissionAnswered (nextPromise (platform s)) answers] s
  = snd (initialize_afterPermission (nextPromise (platform s)) b
           (mkWorld (service s) (platform (resumed s)) (client s) (trace s ++ t))).
Proof.
  intros Hi Hreq. unfold run. simpl.
  unfold step at 2. simpl. unfold bind at 1.
  rewrite (initialize_suspends _ Hi). unfold ret at 1.
  unfold step, handle. unfold bind at 1. unfold getPlatform at 1.
  cbn [snd platform permissionPending set_permissionPending].
  rewrite existsb_pending.
  unfold bind at 1. unfold modifyPlatform at 1.
  unfold bind at 1. cbn [service platform client trace].
  rewrite Hreq by reflexivity. reflexivity.
Qed.


Lemma afterPermission_denied (k : nat) (r : Reaction) (s : World) :
  assoc k (promises (platform s)) = Some (Pending, r) ->
  initialize_afterPermission k false s
  = (Returned tt,
     mkWorld (service s)
       (updatePromise k (Rejected (ThrownError "Location permission denied"), r)
          (platform s))
       (client s)
       (trace s ++ [ConsoleError [LogText "Failed to initialize LocationService:";
                                  LogThrown (ThrownError "Location permission denied")]])).
Proof.
  intros H. unfold initialize_afterPermission, try_catch, throw.
  apply initialize_catch_rejects. exact H.
Qed.

(** After a granted permission the call is suspended on the promise of the
    watch it has just registered. *)
Lemma afterPermission_granted (k : nat) (rk : Reaction) (s : World) :
  one_watch s ->
  assoc k (promises (platform s)) = Some (Pending, rk) ->
  k <> nextPromise (platform s) ->
  let w := nextWatch (platform s) in
  let p := nextPromise (platform s) in
  let s2 := snd (initialize_afterPermission k true s) in
  service s2 = set_watchId (Some w) (service s) /\
  geoWatches (platform s2) = [(w, p)] /\
  assoc p (promises (platform s2)) = Some (Pending, ResumeInitialize k) /\
  assoc k (promises (platform s2)) = Some (Pending, rk) /\
  appStateListeners (platform s2) = appStateListeners (platform s) /\
  nextListener (platform s2) = nextListener (platform s) /\
  appStateFault (platform s2) = appStateFault (platform s) /\
  client s2 = client s /\
  invocations (trace s2) = invocations (trace s).
Proof.
  intros H Hk Hne w p s2. unfold one_watch, activeWatches in H.
  assert (Hs2 : exists pf t,
    s2 = mkWorld (set_watchId (Some w) (service s))
           (updatePromise p (Pending, ResumeInitialize k)
              (registerWatch w p (allocPromise p pf)))
           (client s) (trace s ++ t) /\
    invocations t = [] /\
    geoWatches pf = [] /\ promises pf = promises (platform s) /\
    appStateListeners pf = appStateListeners (platform s) /\
    nextListener pf = nextListener (platform s) /\
    appStateFault pf = appStateFault (platform s)).
  { unfold s2, initialize_afterPermission, try_catch, bind.
    destruct (watchId (service s)) as [w0 |] eqn:Hw.
    - rewrite (startLocationTracking_some _ _ Hw).
      unfold attach. unfold_m. simpl. rewrite Nat.eqb_refl.
      exists (unregisterWatch w0 (platform s)),
             [GeoClearWatch w0; GeoWatchPosition w].
      simpl. rewrite (unregister_only _ _ H). repeat split.
    - rewrite (startLocationTracking_none _ Hw).
      unfold attach. unfold_m. simpl. rewrite Nat.eqb_refl.
      exists (platform s), [GeoWatchPosition w].
      simpl. apply map_eq_nil in H. repeat split. exact H. }
  destruct Hs2 as (pf & t & -> & Ht & Hg & Hpr & Hl & Hn & Hf).
  simpl. rewrite Hg, Hpr, Hl, Hn, Hf, invocations_app, Ht, app_nil_r.
  rewrite !Nat.eqb_refl. simpl.
  destruct (Nat.eqb_spec p k) as [E | _];
    [exfalso; apply Hne; symmetry; exact E |].
  rewrite assoc_update_neq by exact Hne.
  repeat split. exact Hk.
Qed.

(** The first delivery of the watch resumes the suspended call. *)
Lemma tracking_error_resumes (s : World) (w p k : nat) (rk : Reaction)
    (error : GeoError) :
  assoc w (geoWatches (platform s)) = Some p ->
  assoc p (promises (platform s)) = Some (Pending, ResumeInitialize k) ->
  assoc k (promises (platform s)) = Some (Pending, rk) ->
  k <> p ->
  let s3 := step s (WatchDelivers w (inr error)) in
  promiseState k s3
    = Some (Rejected (ThrownLocationError (mapGeolocationError error))) /\
  service s3 = service s /\
  geoWatches (platform s3) = geoWatches (platform s) /\
  appStateListeners (platform s3) = appStateListeners (platform s).
Proof.
  intros Hw Hp Hk Hne s3.
  assert (Hs3 : exists t,
    s3 = mkWorld (service s)
           (updatePromise k
              (Rejected (ThrownLocationError (mapGeolocationError error)), rk)
              (updatePromise p
                 (Rejected (ThrownLocationError (mapGeolocationError error)),
                  ResumeInitialize k)
                 (platform s)))
           (client s) t).
  { unfold s3, step, handle, bind, getPlatform. simpl. rewrite Hw.
    fold (bind (W := W) (A := unit) (B := unit)).
    rewrite watch_onError_run.
    match goal with
    | |- context [reject p ?e ?s1] =>
        assert (Hp1 : assoc p (promises (platform s1)) = Some (Pending, ResumeInitialize k))
          by (unfold showLocationError; destruct (type (mapGeolocationError error));
              exact Hp)
    end.
    unfold reject. unfold bind at 1.
    rewrite (settle_pending _ _ _ _ Hp1). unfold react.
    unfold initialize_afterTracking, try_catch, throw. unfold bind at 1.
    erewrite initialize_catch_rejects.
    2:{ simpl. rewrite assoc_update_neq by exact Hne.
        unfold showLocationError; destruct (type (mapGeolocationError error));
          exact Hk. }
    unfold showLocationError; destruct (type (mapGeolocationError error));
      simpl; eexists; reflexivity. }
  destruct Hs3 as [t ->]. unfold promiseState. simpl.
  erewrite assoc_update_eq.
  2:{ rewrite assoc_update_neq by exact Hne. exact Hk. }
  repeat split.
Qed.

Lemma tracking_position_resumes (s : World) (w p k : nat) (rk : Reaction)
    (position : GeoPosition) :
  assoc w (geoWatches (platform s)) = Some p ->
  assoc p (promises (platform s)) = Some (Pending, ResumeInitialize k) ->
  assoc k (promises (platform s)) = Some (Pending, rk) ->
  k <> p ->
  let location := toUserLocation position in
  let s3 := step s (WatchDelivers w (inl position)) in
  geoWatches (platform s3) = geoWatches (platform s) /\
  invocations (trace s3)
    = invocations (trace s)
      ++ map (fun item => (hname (callback item), location)) (callbacks (service s)) /\
  match appStateFault (platform s) with
  | None =>
      promiseState k s3 = Some Resolved /\
      service s3
        = set_isInitialized true
            (set_appStateSubscription (Some (nextListener (platform s)))
               (set_lastKnownLocation (Some location) (service s))) /\
      appStateListeners (platform s3)
        = appStateListeners (platform s) ++ [nextListener (platform s)]
  | Some e =>
      promiseState k s3 = Some (Rejected e) /\
      service s3 = set_lastKnownLocation (Some location) (service s) /\
      appStateListeners (platform s3) = appStateListeners (platform s)
  end.
Proof.
  intros Hw Hp Hk Hne location s3.
  assert (Hs3 : s3 = snd (watch_onPosition p position s)).
  { unfold s3, step, handle, bind, getPlatform. simpl. rewrite Hw. reflexivity. }
  split; [| split].
  - rewrite Hs3, watch_onPosition_run.
    match goal with
    | |- context [resolve p ?s1] =>
        destruct (resolve_untouched p s1) as (_ & _ & _ & Hg & _)
    end.
    rewrite Hg. reflexivity.
  - rewrite Hs3. apply watch_onPosition_notifies.
  - rewrite Hs3, watch_onPosition_run. clear Hs3 s3.
    set (s1 := mkWorld _ _ _ _).
    assert (Hp1 : assoc p (promises (platform s1)) = Some (Pending, ResumeInitialize k))
      by exact Hp.
    assert (Hk1 : assoc k (promises (updatePromise p (Resolved, ResumeInitialize k)
                                       (platform s)))
                  = Some (Pending, rk)).
    { simpl. rewrite assoc_update_neq by exact Hne. exact Hk. }
    destruct (appStateFault (platform s)) as [e |] eqn:Hf.
    + assert (E : snd (resolve p s1)
                  = mkWorld (service s1)
                      (updatePromise k (Rejected e, rk)
                         (updatePromise p (Resolved, ResumeInitialize k) (platform s)))
                      (client s1)
                      (trace s1 ++
                       [ConsoleError [LogText "Failed to initialize LocationService:";
                                      LogThrown e]])).
      { unfold resolve. unfold bind at 1.
        rewrite (settle_pending _ _ _ _ Hp1). unfold react.
        unfold initialize_afterTracking, setupAppStateListener,
          AppState_addEventListener.
        unfold try_catch, bind, ret, throw, getPlatform, modifyPlatform,
          modifyService.
        cbn [platform service client trace updatePromise appStateFault s1].
        rewrite Hf. erewrite initialize_catch_rejects by exact Hk1.
        reflexivity. }
      rewrite E. unfold promiseState. simpl.
      erewrite assoc_update_eq by exact Hk1. repeat split.
    + assert (E : snd (resolve p s1)
                  = mkWorld
                      (set_isInitialized true
                         (set_appStateSubscription (Some (nextListener (platform s)))
                            (service s1)))
                      (updatePromise k (Resolved, rk)
                         (installListener (nextListener (platform s))
                            (updatePromise p (Resolved, ResumeInitialize k)
                               (platform s))))
                      (client s1) (trace s1)).
      { unfold resolve. unfold bind at 1.
        rewrite (settle_pending _ _ _ _ Hp1). unfold react.
        unfold initialize_afterTracking, setupAppStateListener,
          AppState_addEventListener.
        unfold try_catch, bind, ret, throw, getPlatform, modifyPlatform,
          modifyService.
        cbn [platform service client trace updatePromise appStateFault s1].
        rewrite Hf. cbn [platform service client trace].
        erewrite settle_pending by exact Hk1.
        reflexivity. }
      rewrite E. unfold promiseState. simpl.
      erewrite assoc_update_eq by exact Hk1. repeat split.
Qed.


(** The answer of the platform decides the permission request in every
    state with the same [Platform.OS]. *)
Lemma permission_decided (answers : PermissionAnswers) (s : World) (b : bool) :
  fst (requestLocationPermission answers s) = Returned b ->
  exists t,
    invocations t = [] /\
    forall s0 : World, os (platform s0) = os (platform s) ->
      requestLocationPermission answers s0
      = (Returned b,
         mkWorld (service s0) (platform s0) (client s0) (trace s0 ++ t)).
Proof.
  intros Hb. destruct (requestLocationPermission_run answers s) as (b' & t & Ht & Hrun).
  rewrite (Hrun s eq_refl) in Hb. simpl in Hb. injection Hb as ->.
  exists t. split; assumption.
Qed.

(** The state after [initialize] was called in [s] and the permission
    was granted: the call waits for the first delivery of its watch. *)
Lemma initialize_granted (s : World) (answers : PermissionAnswers) :
  isInitialized (service s) = false ->
  one_watch s ->
  fst (requestLocationPermission answers s) = Returned true ->
  let k := nextPromise (platform s) in
  let w := nextWatch (platform s) in
  let s2 := run [Calls CInitialize; PermissionAnswered k answers] s in
  service s2 = set_watchId (Some w) (service s) /\
  geoWatches (platform s2) = [(w, S k)] /\
  assoc (S k) (promises (platform s2)) = Some (Pending, ResumeInitialize k) /\
  assoc k (promises (platform s2)) = Some (Pending, Unobserved) /\
  appStateListeners (platform s2) = appStateListeners (platform s) /\
  nextListener (platform s2) = nextListener (platform s) /\
  appStateFault (platform s2) = appStateFault (platform s) /\
  client s2 = client s /\
  invocations (trace s2) = invocations (trace s).
Proof.
  intros Hi H Hb k w s2.
  destruct (permission_decided _ _ _ Hb) as (t & Ht & Hreq).
  unfold s2, k. rewrite (answered_run _ _ _ _ Hi Hreq).
  set (X := mkWorld _ _ _ _).
  assert (HX : one_watch X) by exact H.
  assert (Hk : assoc (nextPromise (platform s)) (promises (platform X))
               = Some (Pending, Unobserved)).
  { simpl. rewrite Nat.eqb_refl. reflexivity. }
  assert (Hne : nextPromise (platform s) <> nextPromise (platform X)).
  { simpl. apply Nat.neq_succ_diag_r. }
  destruct (afterPermission_granted _ _ _ HX Hk Hne)
    as (A & B & C & D & E & F & G & I' & J).
  change (nextPromise (platform X)) with (S (nextPromise (platform s))) in B, C.
  change (nextWatch (platform X)) with (nextWatch (platform s)) in A, B.
  rewrite A, B, C, D, E, F, G, I', J. unfold X. simpl.
  rewrite invocations_app, Ht, app_nil_r. repeat split.
Qed.

(** C4, as the code has it. [initialize] returns at once when the service
    is initialized already: its promise is fulfilled, a warning is logged,
    and nothing else changes (no permission request, no watch, no
    listener). Otherwise every failure rejects the promise of the call
    with the error and leaves [isInitialized] false and the lifecycle
    listener as it was: a denied permission rejects with the error
    ['Location permission denied'] and leaves the static fields and the
    platform's watches exactly as before the call; a first delivery that
    is an error rejects with the mapped [LocationError], and a listener
    installation that throws rejects with the thrown value, and in these
    two cases the watch the call registered stays registered and stored
    in [watchId]. *)
Theorem initialize_fails_closed (s : World) (answers : PermissionAnswers) :
  let k := nextPromise (platform s) in
  let w := nextWatch (platform s) in
  (isInitialized (service s) = true ->
     fst (initialize s) = Returned k /\
     promiseState k (snd (initialize s)) = Some Resolved /\
     service (snd (initialize s)) = service s /\
     geoWatches (platform (snd (initialize s))) = geoWatches (platform s) /\
     appStateListeners (platform (snd (initialize s)))
       = appStateListeners (platform s) /\
     permissionPending (platform (snd (initialize s)))
       = permissionPending (platform s) /\
     trace (snd (initialize s))
       = trace s ++ [ConsoleWarn [LogText "LocationService already initialized"]]) /\
  (isInitialized (service s) = false ->
     (fst (requestLocationPermission answers s) = Returned false ->
        let s2 := run [Calls CInitialize; PermissionAnswered k answers] s in
        promiseState k s2
          = Some (Rejected (ThrownError "Location permission denied")) /\
        service s2 = service s /\
        geoWatches (platform s2) = geoWatches (platform s) /\
        appStateListeners (platform s2) = appStateListeners (platform s)) /\
     (fst (requestLocationPermission answers s) = Returned true ->
      one_watch s ->
        (forall error,
           let s3 := run [Calls CInitialize; PermissionAnswered k answers;
                          WatchDelivers w (inr error)] s in
           promiseState k s3
             = Some (Rejected (ThrownLocationError (mapGeolocationError error))) /\
           isInitialized (service s3) = false /\
           appStateSubscription (service s3) = appStateSubscription (service s) /\
           appStateListeners (platform s3) = appStateListeners (platform s) /\
           lastKnownLocation (service s3) = lastKnownLocation (service s) /\
           watchId (service s3) = Some w /\
           activeWatches s3 = [w]) /\
        (forall position e,
           appStateFault (platform s) = Some e ->
           let s3 := run [Calls CInitialize; PermissionAnswered k answers;
                          WatchDelivers w (inl position)] s in
           promiseState k s3 = Some (Rejected e) /\
           isInitialized (service s3) = false /\
           appStateSubscription (service s3) = appStateSubscription (service s) /\
           appStateListeners (platform s3) = appStateListeners (platform s) /\
           lastKnownLocation (service s3) = Some (toUserLocation position) /\
           watchId (service s3) = Some w /\
           activeWatches s3 = [w]))).
Proof.
  intros k w. split.
  - intros Hi. rewrite (initialize_already _ Hi). unfold promiseState. simpl.
    rewrite Nat.eqb_refl. simpl. rewrite Nat.eqb_refl. repeat split.
  - intros Hi. split.
    + intros Hb s2.
      destruct (permission_decided _ _ _ Hb) as (t & _ & Hreq).
      unfold s2, k. rewrite (answered_run _ _ _ _ Hi Hreq).
      erewrite afterPermission_denied
        by (simpl; rewrite Nat.eqb_refl; reflexivity).
      unfold promiseState. simpl. rewrite !Nat.eqb_refl. simpl.
      rewrite ?Nat.eqb_refl. repeat split.
    + intros Hb H.
      destruct (initialize_granted _ _ Hi H Hb)
        as (A & B & C & D & E & F & G & _ & _).
      fold k w in A, B, C, D, E, F, G.
      set (s2 := run [Calls CInitialize; PermissionAnswered k answers] s) in *.
      assert (Hw : assoc w (geoWatches (platform s2)) = Some (S k))
        by (rewrite B; simpl; rewrite Nat.eqb_refl; reflexivity).
      assert (Hne : k <> S k) by apply Nat.neq_succ_diag_r.
      split.
      * intros error s3.
        destruct (tracking_error_resumes _ _ _ _ _ error Hw C D Hne)
          as (P & Q & R & T).
        change s3 with (step s2 (WatchDelivers w (inr error))).
        rewrite P, Q. unfold activeWatches. rewrite R, T, A, B, E.
        destruct (service s); simpl in *. repeat split. exact Hi.
      * intros position e He s3.
        destruct (tracking_position_resumes _ _ _ _ _ position Hw C D Hne)
          as (R & _ & P).
        rewrite G, He in P. destruct P as (P & Q & T).
        change s3 with (step s2 (WatchDelivers w (inl position))).
        rewrite P, Q. unfold activeWatches. rewrite R, T, A, B, E.
        destruct (service s); simpl in *. repeat split. exact Hi.
Qed.


(** ** [cleanup] *)

Ltac unfold_cleanup :=
  unfold cleanup, stopLocationTracking, Geolocation_clearWatch, clearAllCallbacks,
    removeAppStateListener, subscription_remove;
  unfold_m.

Lemma cleanup_run (s : World) :
  exists pf t,
    cleanup s = (Returned tt, mkWorld initialService pf (client s) (trace s ++ t)) /\
    invocations t = [] /\
    geoWatches pf
      = match watchId (service s) with
        | Some w => filter (fun e => negb (Nat.eqb (fst e) w)) (geoWatches (platform s))
        | None => geoWatches (platform s)
        end /\
    appStateListeners pf
      = match appStateSubscription (service s) with
        | Some l => filter (fun l' => negb (Nat.eqb l' l)) (appStateListeners (platform s))
        | None => appStateListeners (platform s)
        end /\
    os pf = os (platform s) /\
    nextWatch pf = nextWatch (platform s) /\
    nextPromise pf = nextPromise (platform s) /\
    nextListener pf = nextListener (platform s) /\
    appStateFault pf = appStateFault (platform s).
Proof.
  destruct s as [[wid cbs init sub last] pf c t].
  unfold_cleanup. simpl.
  destruct wid as [w |], sub as [l |]; simpl.
  - exists (uninstallListener l (unregisterWatch w pf)), [GeoClearWatch w].
    repeat split.
  - exists (unregisterWatch w pf), [GeoClearWatch w]. repeat split.
  - exists (uninstallListener l pf), []. rewrite app_nil_r. repeat split.
  - exists pf, []. rewrite app_nil_r. repeat split.
Qed.






(** ** Subscription ids *)

Lemma toString_inj (n m : Z) : toString n = toString m -> n = m.
Proof.
  unfold toString. intros H.
  assert (E : Some (Z.to_int n) = Some (Z.to_int m)).
  { rewrite <- (NilEmpty.isi (Z.to_int n)), <- (NilEmpty.isi (Z.to_int m)).
    now rewrite H. }
  injection E as E.
  rewrite <- (DecimalZ.of_to n), <- (DecimalZ.of_to m). now rewrite E.
Qed.

Lemma append_same_length (a c b d : string) :
  String.length a = String.length c ->
  (a ++ b)%string = (c ++ d)%string -> a = c /\ b = d.
Proof.
  revert c. induction a as [| x a IH]; intros [| y c]; simpl; try discriminate.
  - intros _ H. split; [reflexivity | exact H].
  - intros Hlen H. injection Hlen as Hlen. injection H as -> H.
    destruct (IH c Hlen H) as [-> ->]. split; reflexivity.
Qed.

Lemma addLocationCallback_id (now : Z) (random36 : string) (handler : Handler)
    (s : World) (i : string) :
  fst (addLocationCallback now random36 handler s) = Returned i ->
  i = (toString now ++ substr 2 9 random36)%string.
Proof.
  rewrite addLocationCallback_run.
  destruct (lastKnownLocation (service s)) as [location |]; simpl.
  - destruct (snd (hrun handler location (client s))); intros H;
      [discriminate | now injection H].
  - intros H. now injection H.
Qed.

(** C6, as the code has it. The id is the decimal text of the clock
    reading followed by the (up to nine) characters of the random draw's
    base-36 text after the leading ["0."]. Two registrations whose clock
    readings have the same number of digits get the same id exactly when
    the clock readings are equal and the draws agree on those characters;
    they get different ids otherwise. *)
Theorem subscription_ids_equal_iff (now1 now2 : Z) (random1 random2 : string)
    (h1 h2 : Handler) (s1 s2 : World) (id1 id2 : string) :
  fst (addLocationCallback now1 random1 h1 s1) = Returned id1 ->
  fst (addLocationCallback now2 random2 h2 s2) = Returned id2 ->
  String.length (toString now1) = String.length (toString now2) ->
  id1 = (toString now1 ++ substr 2 9 random1)%string /\
  id2 = (toString now2 ++ substr 2 9 random2)%string /\
  (id1 = id2 <-> now1 = now2 /\ substr 2 9 random1 = substr 2 9 random2).
Proof.
  intros H1 H2 Hlen.
  apply addLocationCallback_id in H1. apply addLocationCallback_id in H2.
  split; [exact H1 | split; [exact H2 |]]. subst id1 id2. split.
  - intros H. destruct (append_same_length _ _ _ _ Hlen H) as [Hn Hr].
    split; [apply toString_inj, Hn | exact Hr].
  - intros [-> ->]. reflexivity.
Qed.


(** ** [requestLocationPermission] by itself *)

(** X1. The permission request never throws, whatever the platform
    answers: on iOS through the success or the error callback of
    [requestAuthorization], on Android with the outcomes of [check] and
    [request], thrown errors included. It returns a boolean, leaves the
    static fields, the platform and the client as they are, and writes at
    most one warning to the console, none when it answers [true]. *)
Theorem requestLocationPermission_never_throws (answers : PermissionAnswers)
    (s : World) :
  exists b t,
    requestLocationPermission answers s
    = (Returned b, mkWorld (service s) (platform s) (client s) (trace s ++ t)) /\
    (t = [] \/ exists args, t = [ConsoleWarn args]) /\
    (b = true -> t = []).
Proof.
  destruct answers as [auth check request].
  unfold requestLocationPermission, awaited, console_warn. unfold_m. simpl.
  destruct (os (platform s)).
  - destruct auth as [error |].
    + exists false, [ConsoleWarn [LogText "iOS location permission denied:";
                                  LogGeoError error]].
      split; [reflexivity | split; [right; eexists; reflexivity | discriminate]].
    + exists true, []. rewrite app_nil_r.
      split; [now destruct s | split; [left |]; reflexivity].
  - destruct check as [[|] | err].
    + exists true, []. rewrite app_nil_r.
      split; [now destruct s | split; [left |]; reflexivity].
    + destruct request as [granted | err].
      * exists (match granted with GRANTED => true | _ => false end), [].
        rewrite app_nil_r.
        split; [now destruct s | split; [left |]; reflexivity].
      * exists false, [ConsoleWarn [LogText "Error requesting location permission:";
                                    LogThrown err]].
        split; [reflexivity | split; [right; eexists; reflexivity | discriminate]].
    + exists false, [ConsoleWarn [LogText "Error requesting location permission:";
                                  LogThrown err]].
      split; [reflexivity | split; [right; eexists; reflexivity | discriminate]].
Qed.

(** X2. The decision of the permission request. On iOS it is [true] exactly
    when the platform called the success callback. On Android it is [true]
    exactly when the permission was held already, or was not and the
    request returned GRANTED; when it was held already, the outcome of a
    request plays no part, and every other outcome (DENIED,
    NEVER_ASK_AGAIN, a thrown error of the check or of the request) gives
    [false]. *)
Theorem requestLocationPermission_decision (answers : PermissionAnswers)
    (s : World) :
  fst (requestLocationPermission answers s) = Returned true <->
  match os (platform s) with
  | ios => ios_authorization answers = None
  | android =>
      android_check answers = inl true \/
      (android_check answers = inl false /\ android_request answers = inl GRANTED)
  end.
Proof.
  destruct answers as [auth check request].
  unfold requestLocationPermission, awaited, console_warn. unfold_m. simpl.
  destruct (os (platform s)).
  - destruct auth; simpl; split; intros H; try reflexivity; discriminate.
  - destruct check as [[|] | err]; simpl.
    + split; intros _; [left |]; reflexivity.
    + destruct request as [[| |] | err]; simpl; split; intros H;
        try discriminate; try reflexivity;
        try (right; split; reflexivity);
        destruct H as [H | [_ H]]; discriminate.
    + split; intros H; [discriminate | destruct H as [H | [H _]]; discriminate].
Qed.


(** ** [getCurrentLocation] *)

Lemma alerts_app (t u : list Effect) :
  alerts (t ++ u) = alerts t ++ alerts u.
Proof.
  induction t as [| e t IH]; simpl; [reflexivity |].
  destruct e; simpl; rewrite IH; reflexivity.
Qed.

(** X3. The one-shot fetch. A position settles the call with that position
    and stores it as the last known one ([getLastKnownLocation] answers
    it); nothing else changes and no subscriber is notified, but a handler
    registered afterwards is called with it at once. An error settles the
    call with the mapped [LocationError] and logs one console error: no
    alert is shown, and the last known position stays what it was. *)
Theorem getCurrentLocation_settles (s : World) :
  (forall position,
     let location := toUserLocation position in
     let r := getCurrentLocation_onPosition position s in
     fst r = Returned (inl location) /\
     snd r = mkWorld (set_lastKnownLocation (Some location) (service s))
               (platform s) (client s) (trace s) /\
     getLastKnownLocation (snd r) = (Returned (Some location), snd r) /\
     forall now random36 handler,
       invocations (trace (snd (addLocationCallback now random36 handler (snd r))))
       = invocations (trace s) ++ [(hname handler, location)]) /\
  (forall error,
     let r := getCurrentLocation_onError error s in
     fst r = Returned (inr (mapGeolocationError error)) /\
     snd r = mkWorld (service s) (platform s) (client s)
               (trace s ++ [ConsoleError [LogText "Location error:";
                                          LogGeoError error]]) /\
     alerts (trace (snd r)) = alerts (trace s) /\
     getLastKnownLocation (snd r)
       = (Returned (lastKnownLocation (service s)), snd r)).
Proof.
  split.
  - intros position. simpl. repeat split.
    intros now random36 handler. rewrite addLocationCallback_run. simpl.
    rewrite invocations_app. reflexivity.
  - intros error. simpl. repeat split.
    unfold getCurrentLocation_onError, console_error. unfold_m. simpl.
    rewrite alerts_app. simpl. apply app_nil_r.
Qed.


(** ** Unsubscribing *)

Lemma filter_all {A} (f : A -> bool) (l : list A) :
  (forall x, In x l -> f x = true) -> filter f l = l.
Proof.
  induction l as [| x rest IH]; simpl; intros H; [reflexivity |].
  rewrite (H x (or_introl eq_refl)), IH; [reflexivity |].
  intros y Hy. apply H. right. exact Hy.
Qed.

Lemma filter_idem {A} (f : A -> bool) (l : list A) :
  filter f (filter f l) = filter f l.
Proof.
  apply filter_all. intros x Hx. apply filter_In in Hx. apply Hx.
Qed.

Lemma id_differs (item : LocationCallback) (callbackId : string) :
  negb (String.eqb (id item) callbackId) = true <-> id item <> callbackId.
Proof.
  destruct (String.eqb_spec (id item) callbackId) as [E | E]; simpl; split;
    intros H; try reflexivity; try discriminate; try assumption.
  contradiction.
Qed.

(** X4. [removeLocationCallback] always returns. Afterwards the subscribers
    are those of before whose id differs from the one given, every entry
    registered under that id being removed; a second removal changes
    nothing, and the removal of an id nobody registered leaves the whole
    state as it is. *)
Theorem removeLocationCallback_idempotent (callbackId : string) (s : World) :
  let s' := snd (removeLocationCallback callbackId s) in
  fst (removeLocationCallback callbackId s) = Returned tt /\
  (forall item,
     In item (callbacks (service s')) <->
     In item (callbacks (service s)) /\ id item <> callbackId) /\
  removeLocationCallback callbackId s' = (Returned tt, s') /\
  ((forall item, In item (callbacks (service s)) -> id item <> callbackId) ->
   s' = s).
Proof.
  simpl. split; [reflexivity | split; [| split]].
  - intros item. rewrite filter_In, id_differs. reflexivity.
  - unfold removeLocationCallback, modifyService. simpl.
    rewrite filter_idem. reflexivity.
  - intros H. unfold set_callbacks. rewrite filter_all.
    + destruct s as [[] ? ? ?]. reflexivity.
    + intros item Hitem. apply id_differs, H, Hitem.
Qed.


(** X6. After [removeLocationCallback], the next position delivered by a
    registered watch calls the handlers of the remaining subscribers, in
    registration order, and no handler registered under the removed id;
    after [clearAllCallbacks] it calls no handler at all. *)
Theorem unsubscribed_handlers_not_called (callbackId : string) (s : World)
    (w p : nat) (position : GeoPosition) :
  assoc w (geoWatches (platform s)) = Some p ->
  invocations
    (trace (run [Calls (CRemoveLocationCallback callbackId);
                 WatchDelivers w (inl position)] s))
  = invocations (trace s)
    ++ map (fun item => (hname (callback item), toUserLocation position))
         (filter (fun item => negb (String.eqb (id item) callbackId))
            (callbacks (service s))) /\
  invocations
    (trace (run [Calls CClearAllCallbacks; WatchDelivers w (inl position)] s))
  = invocations (trace s).
Proof.
  intros Hw. unfold run. simpl. split.
  - unfold step at 2. simpl.
    unfold step, handle. unfold bind at 1. unfold getPlatform at 1. simpl.
    rewrite Hw.
    match goal with
    | |- context [watch_onPosition p position ?s1] =>
        destruct (watch_onPosition_notifies p position s1) as (_ & _ & Hi)
    end.
    rewrite Hi. reflexivity.
  - unfold step at 2. simpl.
    unfold step, handle. unfold bind at 1. unfold getPlatform at 1. simpl.
    rewrite Hw.
    match goal with
    | |- context [watch_onPosition p position ?s1] =>
        destruct (watch_onPosition_notifies p position s1) as (_ & _ & Hi)
    end.
    rewrite Hi. simpl. apply app_nil_r.
Qed.


(** ** Deliveries after the first *)




(** ** Alerts *)

Lemma alerts_notify_trace (l : list LocationCallback) (location : UserLocation)
    (c : W) :
  alerts (notify_trace l location c) = [].
Proof.
  revert c. induction l as [| item rest IH]; intros c; simpl; [reflexivity |].
  rewrite alerts_app, IH.
  destruct (snd (hrun (callback item) location c)); reflexivity.
Qed.

Lemma resolve_alerts (p : nat) (s : World) :
  alerts (trace (snd (resolve p s))) = alerts (trace s).
Proof.
  unfold_service. cases; rewrite ?alerts_app, ?app_nil_r; reflexivity.
Qed.

Lemma reject_alerts (p : nat) (reason : JsThrown) (s : World) :
  alerts (trace (snd (reject p reason s))) = alerts (trace s).
Proof.
  unfold_service. cases; rewrite ?alerts_app, ?app_nil_r; reflexivity.
Qed.

(** X9. Every error a watch delivers shows exactly one alert, whether or not
    it settles a promise and whatever the call resumed by the rejection
    does: title ['Permission Required'] for platform code 1 and
    ['Location Error'] otherwise, a fixed text for the codes 1, 2 and 3,
    and for every other code (or none) the platform's message, or
    ['Unknown location error'] when that is missing or empty. A position
    a watch delivers shows no alert. *)
Theorem watch_error_alerts_once (p : nat) (s : World) :
  (forall error,
     alerts (trace (snd (watch_onError p error s)))
     = alerts (trace s) ++
       [match error_code error with
        | Some 1%Z =>
            ("Permission Required",
             "Please enable location permissions in your device settings.")
        | Some 2%Z =>
            ("Location Error",
             "Unable to determine your location. Please check your GPS settings.")
        | Some 3%Z =>
            ("Location Error", "Location request timed out. Please try again.")
        | _ =>
            ("Location Error",
             or_else (error_message error) "Unknown location error")
        end]) /\
  (forall position,
     alerts (trace (snd (watch_onPosition p position s))) = alerts (trace s)).
Proof.
  split.
  - intros error. rewrite watch_onError_run, reject_alerts.
    unfold showLocationError, mapGeolocationError, emit.
    destruct (error_code error) as [c |]; simpl;
      [| rewrite !alerts_app; simpl; rewrite app_nil_r; reflexivity].
    repeat (match goal with
            | |- context [match ?x with _ => _ end] => is_var x; destruct x
            end; simpl);
      rewrite !alerts_app; simpl; rewrite app_nil_r; reflexivity.
  - intros position. rewrite watch_onPosition_run, resolve_alerts. simpl.
    rewrite alerts_app, alerts_notify_trace. apply app_nil_r.
Qed.


(** ** The lifecycle listener *)

Lemma appStateListener_ignored (nextAppState : string) (s : World) :
  nextAppState <> "active" \/ isInitialized (service s) = false
  \/ watchId (service s) <> None ->
  appStateListener nextAppState s = (Returned tt, s).
Proof.
  intros H. unfold appStateListener, bind, getService. simpl.
  destruct (String.eqb_spec nextAppState "active") as [E | E]; simpl.
  - destruct (isInitialized (service s)) eqn:Hi; simpl.
    + destruct (watchId (service s)) eqn:Hw; simpl.
      * destruct (String.eqb nextAppState "background"); reflexivity.
      * exfalso.
        destruct H as [H | [H | H]];
          [contradiction | discriminate | contradiction].
    + destruct (String.eqb nextAppState "background"); reflexivity.
  - destruct (String.eqb nextAppState "background"); reflexivity.
Qed.

Lemma forEach_appStateListener_ignored (nextAppState : string) (l : list nat)
    (s : World) :
  nextAppState <> "active" \/ isInitialized (service s) = false
  \/ watchId (service s) <> None ->
  forEach (fun _ => appStateListener nextAppState) l s = (Returned tt, s).
Proof.
  intros H. induction l as [| x rest IH]; simpl; [reflexivity |].
  unfold bind. rewrite (appStateListener_ignored _ _ H). exact IH.
Qed.

(** X10. A change of the application's lifecycle state does nothing at all
    (no effect, no change of state, nothing thrown) unless the new state
    is ['active'], the service is initialized and no watch is stored:
    going to the background, in particular, leaves tracking running. *)
Theorem appState_change_ignored (nextAppState : string) (s : World) :
  nextAppState <> "active" \/ isInitialized (service s) = false
  \/ watchId (service s) <> None ->
  handle (AppStateChanges nextAppState) s = (Returned tt, s).
Proof.
  intros H. unfold handle, bind, getPlatform.
  apply forEach_appStateListener_ignored. exact H.
Qed.

(** The first listener restarts tracking; the others find a watch. *)
Lemma foreground_step (s : World) :
  isInitialized (service s) = true ->
  watchId (service s) = None ->
  appStateListeners (platform s) <> [] ->
  step s (AppStateChanges "active")
  = mkWorld (set_watchId (Some (nextWatch (platform s))) (service s))
      (updatePromise (nextPromise (platform s)) (Pending, CatchConsoleError)
         (registerWatch (nextWatch (platform s)) (nextPromise (platform s))
            (allocPromise (nextPromise (platform s)) (platform s))))
      (client s) (trace s ++ [GeoWatchPosition (nextWatch (platform s))]).
Proof.
  intros Hi Hw Hl.
  set (s1 := mkWorld _ _ _ _).
  assert (Hfirst : appStateListener "active" s = (Returned tt, s1)).
  { unfold appStateListener. unfold bind at 1. unfold getService at 1.
    cbn [service]. rewrite Hi, Hw. cbn [String.eqb Ascii.eqb Bool.eqb andb].
    unfold bind at 1. rewrite (startLocationTracking_none _ Hw).
    unfold attach. unfold_m. simpl. rewrite Nat.eqb_refl. reflexivity. }
  unfold step, handle. unfold bind at 1. unfold getPlatform at 1.
  destruct (appStateListeners (platform s)) as [| l rest];
    [contradiction |].
  cbn [forEach]. unfold bind at 1. rewrite Hfirst.
  rewrite forEach_appStateListener_ignored; [reflexivity |].
  right. right. discriminate.
Qed.

(** X11. When the application becomes active while the service is initialized
    and holds no watch, tracking is started again exactly once, however
    many lifecycle listeners are installed: one new watch is registered
    and stored in [watchId], its promise pending, and nothing else
    changes. When that watch then delivers an error, nothing is thrown:
    the rejection of its promise is written to the console after the log
    line and the alert of the watch, and the watch stays stored in
    [watchId]. *)
Theorem foreground_restarts_once (s : World) :
  isInitialized (service s) = true ->
  watchId (service s) = None ->
  one_watch s ->
  appStateListeners (platform s) <> [] ->
  let w := nextWatch (platform s) in
  let p := nextPromise (platform s) in
  let s' := step s (AppStateChanges "active") in
  service s' = set_watchId (Some w) (service s) /\
  geoWatches (platform s') = [(w, p)] /\
  promiseState p s' = Some Pending /\
  appStateListeners (platform s') = appStateListeners (platform s) /\
  client s' = client s /\
  trace s' = trace s ++ [GeoWatchPosition w] /\
  forall error,
    fst (handle (WatchDelivers w (inr error)) s') = Returned tt /\
    service (step s' (WatchDelivers w (inr error))) = service s' /\
    promiseState p (step s' (WatchDelivers w (inr error)))
      = Some (Rejected (ThrownLocationError (mapGeolocationError error))) /\
    exists title text,
      trace (step s' (WatchDelivers w (inr error)))
      = trace s' ++
        [ConsoleError [LogText "Location tracking error:"; LogGeoError error];
         Alerted title text;
         ConsoleError [LogThrown (ThrownLocationError (mapGeolocationError error))]].
Proof.
  intros Hi Hw H1 Hl w p s'.
  assert (Hg : geoWatches (platform s) = []).
  { unfold one_watch, activeWatches in H1. rewrite Hw in H1.
    apply map_eq_nil in H1. exact H1. }
  set (s1 := mkWorld (set_watchId (Some w) (service s))
               (updatePromise p (Pending, CatchConsoleError)
                  (registerWatch w p (allocPromise p (platform s))))
               (client s) (trace s ++ [GeoWatchPosition w])).
  assert (Hs' : s' = s1) by (apply foreground_step; assumption).
  clearbody s'. subst s'.
  assert (Hp : assoc p (promises (platform s1)) = Some (Pending, CatchConsoleError)).
  { simpl. rewrite !Nat.eqb_refl. simpl. rewrite ?Nat.eqb_refl. reflexivity. }
  split; [reflexivity | split; [simpl; rewrite Hg; reflexivity | split]].
  { unfold promiseState. rewrite Hp. reflexivity. }
  split; [reflexivity | split; [reflexivity | split; [reflexivity |]]].
  intros error.
  set (reason := ThrownLocationError (mapGeolocationError error)).
  assert (Hrun : exists title text,
    handle (WatchDelivers w (inr error)) s1
    = (Returned tt,
       mkWorld (service s1)
         (updatePromise p (Rejected reason, CatchConsoleError) (platform s1))
         (client s1)
         (trace s1 ++
          [ConsoleError [LogText "Location tracking error:"; LogGeoError error];
           Alerted title text;
           ConsoleError [LogThrown reason]]))).
  { unfold handle. unfold bind at 1. unfold getPlatform at 1.
    cbn [platform s1 updatePromise registerWatch geoWatches allocPromise].
    rewrite Hg. cbn [app assoc]. rewrite Nat.eqb_refl.
    rewrite watch_onError_run. fold reason.
    unfold showLocationError, emit.
    destruct (type (mapGeolocationError error)); cbn [snd];
      unfold reject; unfold bind at 1;
      (erewrite settle_pending by exact Hp);
      unfold react, console_error, emit; cbn [service platform client trace];
      rewrite <- !app_assoc; do 2 eexists; reflexivity. }
  destruct Hrun as (title & text & Hrun).
  unfold step. rewrite Hrun. cbn [fst snd service platform trace].
  split; [reflexivity | split; [reflexivity | split]].
  - unfold promiseState. cbn [platform promises updatePromise].
    erewrite assoc_update_eq by exact Hp. reflexivity.
  - exists title, text. reflexivity.
Qed.


(** ** [initialize], when everything succeeds *)



(** ** What each method can change *)

(** A property kept by the effects, the assignments and the platform
    calls a method is made of is kept by the method. Each lemma below
    depends on the effects, assignments and platform calls its method
    really performs, and on no other. *)
Section Footprint.

Variable I : World -> Prop.

Local Abbreviation keeps := (preserves I) (only parsing).

Hypothesis F_warn : forall args, keeps (emit (ConsoleWarn args)).
Hypothesis F_error : forall args, keeps (emit (ConsoleError args)).
Hypothesis F_alert : forall title text, keeps (emit (Alerted title text)).
Hypothesis F_watching : forall w, keeps (emit (GeoWatchPosition w)).
Hypothesis F_cleared : forall w, keeps (emit (GeoClearWatch w)).
Hypothesis F_invoke : forall h location, keeps (invoke h location).
Hypothesis F_watchId : forall v, keeps (modifyService (set_watchId v)).
Hypothesis F_callbacks :
  forall g : Service -> list LocationCallback,
    keeps (modifyService (fun sv => set_callbacks (g sv) sv)).
Hypothesis F_isInitialized : forall v, keeps (modifyService (set_isInitialized v)).
Hypothesis F_subscription :
  forall v, keeps (modifyService (set_appStateSubscription v)).
Hypothesis F_lastKnown :
  forall v, keeps (modifyService (set_lastKnownLocation v)).
Hypothesis F_newPromise : keeps newPromise.
Hypothesis F_settle : forall p outcome, keeps (settle p outcome).
Hypothesis F_attach : forall p r, keeps (attach p r).
Hypothesis F_register : forall w p, keeps (modifyPlatform (registerWatch w p)).
Hypothesis F_unregister : forall w, keeps (modifyPlatform (unregisterWatch w)).
Hypothesis F_install : forall l, keeps (modifyPlatform (installListener l)).
Hypothesis F_uninstall : forall l, keeps (modifyPlatform (uninstallListener l)).
Hypothesis F_pending :
  forall v, keeps (modifyPlatform (set_permissionPending v)).

Ltac footprint_step :=
  first
    [ apply F_warn | apply F_error | apply F_alert | apply F_watching
    | apply F_cleared | apply F_invoke | apply F_watchId | apply F_callbacks
    | apply F_isInitialized | apply F_subscription | apply F_lastKnown
    | apply F_newPromise | apply F_settle | apply F_attach
    | apply F_register | apply F_unregister | apply F_install
    | apply F_uninstall | apply F_pending
    | apply preserves_ret | apply preserves_throw | apply preserves_getService
    | apply preserves_getPlatform | apply preserves_awaited
    | apply preserves_bind; [| intros ?]
    | apply preserves_try_catch; [| intros ?]
    | apply preserves_forEach; intros ?
    | match goal with
      | |- keeps (match ?x with _ => _ end) => destruct x
      | |- keeps (if ?b then _ else _) => destruct b
      end ].

Ltac footprint_by known := repeat first [known | footprint_step].
Ltac footprint := footprint_by fail.

Lemma footprint_stop : keeps stopLocationTracking.
Proof. unfold stopLocationTracking, Geolocation_clearWatch. footprint. Qed.

Lemma footprint_start : keeps startLocationTracking.
Proof.
  unfold startLocationTracking, Geolocation_watchPosition.
  footprint_by ltac:(apply footprint_stop).
Qed.

Lemma footprint_notifyCallbacks (location : UserLocation) :
  keeps (notifyCallbacks location).
Proof. unfold notifyCallbacks, console_error. footprint. Qed.

Lemma footprint_showLocationError (error : LocationError) :
  keeps (showLocationError error).
Proof. unfold showLocationError. footprint. Qed.

Lemma footprint_initialize_catch (k : nat) (error : JsThrown) :
  keeps (initialize_catch k error).
Proof. unfold initialize_catch, console_error. footprint. Qed.

Lemma footprint_initialize : keeps initialize.
Proof. unfold initialize, console_warn. footprint. Qed.

Lemma footprint_requestLocationPermission (answers : PermissionAnswers) :
  keeps (requestLocationPermission answers).
Proof. unfold requestLocationPermission, console_warn. footprint. Qed.

Lemma footprint_initialize_afterPermission (k : nat) (hasPermission : bool) :
  keeps (initialize_afterPermission k hasPermission).
Proof.
  unfold initialize_afterPermission.
  footprint_by
    ltac:(first [apply footprint_start | apply footprint_initialize_catch]).
Qed.

(** The continuation of [initialize] after the first position. *)
Lemma footprint_initialize_afterTracking (k : nat) :
  keeps (initialize_afterTracking k None).
Proof.
  unfold initialize_afterTracking, setupAppStateListener,
    AppState_addEventListener.
  footprint_by ltac:(apply footprint_initialize_catch).
Qed.

(** A rejection takes the continuation of [initialize] straight to its
    [catch] block. *)
Lemma footprint_initialize_failed (k : nat) (reason : JsThrown) :
  keeps (initialize_afterTracking k (Some reason)).
Proof.
  intros s H. change (I (snd (initialize_catch k reason s))).
  apply footprint_initialize_catch. exact H.
Qed.

Lemma footprint_reject (p : nat) (reason : JsThrown) :
  keeps (reject p reason).
Proof.
  unfold reject, react, console_error.
  footprint_by ltac:(apply footprint_initialize_failed).
Qed.

Lemma footprint_watch_onError (p : nat) (error : GeoError) :
  keeps (watch_onError p error).
Proof.
  unfold watch_onError, console_error.
  footprint_by
    ltac:(first [apply footprint_showLocationError | apply footprint_reject]).
Qed.

Lemma footprint_cleanup : keeps cleanup.
Proof.
  unfold cleanup, clearAllCallbacks, removeAppStateListener, subscription_remove.
  footprint_by
    ltac:(first [apply footprint_stop | exact (F_callbacks (fun _ => []))]).
Qed.

Lemma footprint_addLocationCallback (now : Z) (random36 : string)
    (handler : Handler) :
  keeps (addLocationCallback now random36 handler).
Proof. unfold addLocationCallback. footprint. Qed.

Lemma footprint_removeLocationCallback (callbackId : string) :
  keeps (removeLocationCallback callbackId).
Proof.
  exact (F_callbacks
           (fun sv =>
              filter (fun item => negb (String.eqb (id item) callbackId))
                (callbacks sv))).
Qed.

Lemma footprint_clearAllCallbacks : keeps clearAllCallbacks.
Proof. exact (F_callbacks (fun _ => [])). Qed.

Lemma footprint_getCurrentLocation_onPosition (position : GeoPosition) :
  keeps (getCurrentLocation_onPosition position).
Proof. unfold getCurrentLocation_onPosition. footprint. Qed.

Lemma footprint_getCurrentLocation_onError (error : GeoError) :
  keeps (getCurrentLocation_onError error).
Proof. unfold getCurrentLocation_onError, console_error. footprint. Qed.

Lemma footprint_appStateListener (nextAppState : string) :
  keeps (appStateListener nextAppState).
Proof.
  unfold appStateListener. footprint_by ltac:(apply footprint_start).
Qed.

(** The events, one by one. *)
Lemma footprint_calls_initialize : keeps (handle (Calls CInitialize)).
Proof. simpl. footprint_by ltac:(apply footprint_initialize). Qed.

Lemma footprint_calls_start : keeps (handle (Calls CStartLocationTracking)).
Proof. simpl. footprint_by ltac:(apply footprint_start). Qed.

Lemma footprint_calls_add (now : Z) (random36 : string) (handler : Handler) :
  keeps (handle (Calls (CAddLocationCallback now random36 handler))).
Proof. simpl. footprint_by ltac:(apply footprint_addLocationCallback). Qed.

Lemma footprint_answered (k : nat) (answers : PermissionAnswers) :
  keeps (handle (PermissionAnswered k answers)).
Proof.
  simpl.
  footprint_by
    ltac:(first [ apply footprint_requestLocationPermission
                | apply footprint_initialize_afterPermission ]).
Qed.

Lemma footprint_error_delivered (w : nat) (error : GeoError) :
  keeps (handle (WatchDelivers w (inr error))).
Proof. simpl. footprint_by ltac:(apply footprint_watch_onError). Qed.

Lemma footprint_appState (nextAppState : string) :
  keeps (handle (AppStateChanges nextAppState)).
Proof. simpl. footprint_by ltac:(apply footprint_appStateListener). Qed.

Lemma footprint_current_position (position : GeoPosition) :
  keeps (handle (CurrentPositionDelivers (inl position))).
Proof.
  simpl. footprint_by ltac:(apply footprint_getCurrentLocation_onPosition).
Qed.

Lemma footprint_current_error (error : GeoError) :
  keeps (handle (CurrentPositionDelivers (inr error))).
Proof.
  simpl. footprint_by ltac:(apply footprint_getCurrentLocation_onError).
Qed.

(** The continuation of [initialize] after the first position, the
    delivery of a position and [cleanup] assign several fields in a row:
    a property may hold before and after them without holding in
    between. *)
Hypothesis F_afterTracking : forall k, keeps (initialize_afterTracking k None).

Lemma footprint_resolve (p : nat) : keeps (resolve p).
Proof. unfold resolve, react. footprint_by ltac:(apply F_afterTracking). Qed.

Lemma footprint_watch_onPosition (p : nat) (position : GeoPosition) :
  keeps (watch_onPosition p position).
Proof.
  unfold watch_onPosition.
  footprint_by
    ltac:(first [apply footprint_notifyCallbacks | apply footprint_resolve]).
Qed.

Lemma footprint_position_delivered (w : nat) (position : GeoPosition) :
  keeps (handle (WatchDelivers w (inl position))).
Proof. simpl. footprint_by ltac:(apply footprint_watch_onPosition). Qed.

Hypothesis F_onPosition : forall p position, keeps (watch_onPosition p position).
Hypothesis F_current :
  forall position, keeps (getCurrentLocation_onPosition position).
Hypothesis F_cleanup : keeps cleanup.

Lemma footprint_handle (e : Event) : keeps (handle e).
Proof.
  destruct e as [c | k answers | w [position | error] | [position | error]
                | nextAppState].
  - destruct c; simpl;
      footprint_by
        ltac:(first [ apply footprint_initialize | apply footprint_start
                    | apply footprint_stop | apply footprint_addLocationCallback
                    | apply footprint_removeLocationCallback
                    | apply footprint_clearAllCallbacks | apply F_cleanup ]).
  - apply footprint_answered.
  - simpl. footprint_by ltac:(apply F_onPosition).
  - apply footprint_error_delivered.
  - simpl. footprint_by ltac:(apply F_current).
  - apply footprint_current_error.
  - apply footprint_appState.
Qed.

Lemma footprint_run (events : list Event) (s : World) :
  I s -> I (run events s).
Proof.
  revert s. induction events as [| e rest IH]; intros s H; simpl; [exact H |].
  apply IH. apply footprint_handle. exact H.
Qed.

End Footprint.

(** [kept_by known]: a property that does not read what an operation
    writes is kept by it; [known] proves the rest. *)
Ltac kept_by known :=
  first
    [ solve [known]
    | solve [intros; intro; intro; eassumption]
    | solve [intros; intro;
             unfold settle, attach; unfold_m; cases;
             let H := fresh in intro H; exact H]
    | intros; apply footprint_initialize_afterTracking; kept_by known
    | intros; apply footprint_watch_onPosition; kept_by known
    | intros; apply footprint_getCurrentLocation_onPosition; kept_by known
    | apply footprint_cleanup; kept_by known ].

Ltac kept := kept_by fail.

Lemma kept_by_events (I : World -> Prop) :
  (forall e, preserves I (handle e)) ->
  forall events (s : World), I s -> I (run events s).
Proof.
  intros Hh. induction events as [| e rest IH]; intros s H; simpl; [exact H |].
  apply IH. apply Hh. exact H.
Qed.


(** ** The initialized flag and the lifecycle listener *)

Lemma lifecycle_afterTracking (k : nat) :
  preserves lifecycle_consistent (initialize_afterTracking k None).
Proof.
  intros s. unfold lifecycle_consistent. unfold_service. cases; intros H;
    repeat match goal with
           | E : Some _ = Some _ |- _ => injection E as E; subst
           | E : Some _ = None |- _ => discriminate E
           | E : None = Some _ |- _ => discriminate E
           end;
    first [ exact H | congruence
          | split; [reflexivity | apply in_or_app; right; left; reflexivity] ].
Qed.

Lemma lifecycle_cleanup : preserves lifecycle_consistent cleanup.
Proof.
  intros s _. destruct (cleanup_run s) as (pf & t & Hrun & _).
  rewrite Hrun. reflexivity.
Qed.

Lemma lifecycle_handle (e : Event) :
  preserves lifecycle_consistent (handle e).
Proof.
  apply footprint_handle;
    kept_by ltac:(first [apply lifecycle_afterTracking | apply lifecycle_cleanup]).
Qed.

(** X13. In every state the system can reach, the service is initialized
    exactly when it holds a lifecycle subscription, and the listener it
    holds is installed on the platform. *)
Theorem lifecycle_consistent_always (s : World) :
  reachable s ->
  (isInitialized (service s) = true <-> appStateSubscription (service s) <> None) /\
  forall l, appStateSubscription (service s) = Some l ->
            In l (appStateListeners (platform s)).
Proof.
  intros (o & fault & c & events & ->).
  assert (H : lifecycle_consistent (run events (initialWorld o fault c)))
    by (apply (kept_by_events _ lifecycle_handle); reflexivity).
  unfold lifecycle_consistent in H.
  destruct (appStateSubscription (service (run events (initialWorld o fault c))))
    as [l |].
  - destruct H as [Hi Hl]. split.
    + split; [discriminate | intros _; exact Hi].
    + intros l' E. injection E as <-. exact Hl.
  - split.
    + split; [rewrite H; discriminate | intros E; contradiction].
    + discriminate.
Qed.


(** ** Promises settle once *)

Lemma assoc_update_some {A} (p q : nat) (cell c : A) (l : list (nat * A)) :
  assoc q (map (fun e => if Nat.eqb (fst e) p then (p, cell) else e) l) = Some c ->
  exists c', assoc q l = Some c'.
Proof.
  induction l as [| [k v] rest IH]; simpl; [discriminate |].
  destruct (Nat.eqb k p) eqn:Hk; simpl.
  - apply Nat.eqb_eq in Hk. subst k.
    destruct (Nat.eqb p q); [intros _; eexists; reflexivity | exact IH].
  - destruct (Nat.eqb k q); [intros _; eexists; reflexivity | exact IH].
Qed.

Lemma fresh_newPromise : preserves promises_fresh newPromise.
Proof.
  intros s H q cell. unfold newPromise. unfold_m. simpl.
  destruct (Nat.eqb_spec (nextPromise (platform s)) q) as [<- | _].
  - intros _. apply Nat.lt_succ_diag_r.
  - intros Hq. apply Nat.lt_lt_succ_r. exact (H q cell Hq).
Qed.

Lemma fresh_settle (p : nat) (outcome : PromiseState) :
  preserves promises_fresh (settle p outcome).
Proof.
  intros s H. unfold settle. unfold_m. simpl.
  destruct (assoc p (promises (platform s))) as [[[| |] r] |]; simpl;
    try exact H.
  intros q cell Hq. simpl in Hq. apply assoc_update_some in Hq.
  destruct Hq as [c' Hq]. exact (H q c' Hq).
Qed.

Lemma fresh_attach (p : nat) (r : Reaction) :
  preserves promises_fresh (attach p r).
Proof.
  intros s H. unfold attach. unfold_m. simpl.
  destruct (assoc p (promises (platform s))) as [[st r0] |]; simpl;
    try exact H.
  intros q cell Hq. simpl in Hq. apply assoc_update_some in Hq.
  destruct Hq as [c' Hq]. exact (H q c' Hq).
Qed.

(** Attaching a reaction leaves the state of every promise as it is. *)
Lemma attach_keeps (q p : nat) (r : Reaction) (s : World) :
  promiseState p (snd (attach q r s)) = promiseState p s.
Proof.
  unfold attach. unfold_m. simpl.
  destruct (assoc q (promises (platform s))) as [[st r0] |] eqn:Hq; simpl;
    [| reflexivity].
  unfold promiseState. simpl.
  destruct (Nat.eq_dec p q) as [-> | Hne].
  - rewrite (assoc_update_eq _ _ _ _ Hq), Hq. reflexivity.
  - rewrite assoc_update_neq by exact Hne. reflexivity.
Qed.

Lemma final_newPromise (p : nat) (st : PromiseState) :
  preserves (fun s => promises_fresh s /\ promiseState p s = Some st) newPromise.
Proof.
  intros s [Hf Hp]. split; [apply fresh_newPromise; exact Hf |].
  unfold promiseState in *. unfold newPromise. unfold_m. simpl.
  destruct (Nat.eqb_spec (nextPromise (platform s)) p) as [E | _];
    [| exact Hp].
  exfalso.
  destruct (assoc p (promises (platform s))) as [cell |] eqn:Hc;
    [| discriminate Hp].
  apply (Nat.lt_irrefl p). rewrite <- E at 2. exact (Hf p cell Hc).
Qed.

Lemma final_handle (p : nat) (st : PromiseState) (e : Event) :
  st <> Pending ->
  preserves (fun s => promises_fresh s /\ promiseState p s = Some st) (handle e).
Proof.
  intros Hst. apply footprint_handle;
    kept_by
      ltac:(first
              [ apply final_newPromise
              | intros q outcome s [Hf Hp];
                split; [apply fresh_settle; exact Hf
                       | apply settle_keeps; assumption]
              | intros q r s [Hf Hp];
                split; [apply fresh_attach; exact Hf
                       | rewrite attach_keeps; exact Hp] ]).
Qed.

Lemma fresh_reachable (s : World) : reachable s -> promises_fresh s.
Proof.
  intros (o & fault & c & events & ->).
  apply footprint_run;
    [ kept_by
        ltac:(first [ apply fresh_newPromise | apply fresh_settle
                    | apply fresh_attach ]) .. |].
  intros q cell H. discriminate H.
Qed.

(** The promises of the model behave as JavaScript promises do: in every
    state the system can reach, a promise that is fulfilled or rejected
    stays so, with the same reason, whatever calls and platform events
    follow. *)
Lemma settled_promise_final (s : World) (p : nat) (st : PromiseState)
    (events : list Event) :
  reachable s ->
  promiseState p s = Some st ->
  st <> Pending ->
  promiseState p (run events s) = Some st.
Proof.
  intros Hr Hp Hst.
  apply (kept_by_events _ (fun e => final_handle p st e Hst)).
  split; [apply fresh_reachable; exact Hr | exact Hp].
Qed.

(** ** The first position of a watch *)

Lemma resolve_resolves (p : nat) (r : Reaction) (s : World) :
  assoc p (promises (platform s)) = Some (Pending, r) ->
  promiseState p (snd (resolve p s)) = Some Resolved.
Proof.
  intros H. unfold resolve. unfold bind at 1. rewrite (settle_pending _ _ _ _ H).
  set (s1 := mkWorld _ _ _ _).
  assert (H1 : promiseState p s1 = Some Resolved).
  { unfold promiseState, s1. simpl. rewrite (assoc_update_eq _ _ _ _ H).
    reflexivity. }
  destruct r as [| k |]; simpl; try exact H1.
  revert H1.
  apply (footprint_initialize_afterTracking
           (fun s0 => promiseState p s0 = Some Resolved));
    kept_by ltac:(intros q outcome s0 Hq; apply settle_keeps;
                  [exact Hq | discriminate]).
Qed.

(** X7. The first position of a watch fulfils the promise of the call that
    started it: when a registered watch whose promise is pending
    delivers a position, the promise is fulfilled (and stays fulfilled
    whatever the call resumed by it does), the position is stored as the
    last known one, and every subscriber's handler is called with it, in
    registration order. *)
Theorem first_position_fulfils (s : World) (w p : nat) (r : Reaction)
    (position : GeoPosition) :
  assoc w (geoWatches (platform s)) = Some p ->
  assoc p (promises (platform s)) = Some (Pending, r) ->
  promiseState p (step s (WatchDelivers w (inl position))) = Some Resolved /\
  lastKnownLocation (service (step s (WatchDelivers w (inl position))))
    = Some (toUserLocation position) /\
  invocations (trace (step s (WatchDelivers w (inl position))))
    = invocations (trace s)
      ++ map (fun item => (hname (callback item), toUserLocation position))
           (callbacks (service s)).
Proof.
  intros Hw Hp.
  assert (Hs : step s (WatchDelivers w (inl position))
               = snd (watch_onPosition p position s)).
  { unfold step, handle, bind, getPlatform. simpl. rewrite Hw. reflexivity. }
  rewrite Hs.
  destruct (watch_onPosition_notifies p position s) as (Hl & _ & Hi).
  split; [| split; [exact Hl | exact Hi]].
  rewrite watch_onPosition_run. apply (resolve_resolves p r). exact Hp.
Qed.


(** ** What can throw *)

Lemma returns_ret {A} (a : A) : returns (W := W) (ret a).
Proof. intros s. exists a, s. reflexivity. Qed.

Lemma returns_bind {A B} (m : M A) (f : A -> M B) :
  returns m -> (forall a, returns (f a)) -> returns (bind m f).
Proof.
  intros Hm Hf s. unfold bind. destruct (Hm s) as (a & s' & ->). apply Hf.
Qed.

(** A [try] whose [catch] block returns lets nothing escape, whatever its
    body throws. *)
Lemma returns_try_catch {A} (m : M A) (h : JsThrown -> M A) :
  (forall e, returns (h e)) -> returns (try_catch m h).
Proof.
  intros Hh s. unfold try_catch. destruct (m s) as [[a | e] s'].
  - exists a, s'. reflexivity.
  - apply Hh.
Qed.

Lemma returns_forEach {A} (f : A -> M unit) (l : list A) :
  (forall x, returns (f x)) -> returns (forEach f l).
Proof.
  intros Hf. induction l as [| x rest IH]; simpl.
  - apply returns_ret.
  - apply returns_bind; [apply Hf | intros _; exact IH].
Qed.

Lemma returns_getService : returns (W := W) getService.
Proof. intros s. do 2 eexists. reflexivity. Qed.

Lemma returns_getPlatform : returns (W := W) getPlatform.
Proof. intros s. do 2 eexists. reflexivity. Qed.

Lemma returns_modifyService (f : Service -> Service) : returns (modifyService f).
Proof. intros s. do 2 eexists. reflexivity. Qed.

Lemma returns_modifyPlatform (g : Platform -> Platform) :
  returns (W := W) (modifyPlatform g).
Proof. intros s. do 2 eexists. reflexivity. Qed.

Lemma returns_emit (e : Effect) : returns (W := W) (emit e).
Proof. intros s. do 2 eexists. reflexivity. Qed.

Ltac returning_step :=
  first
    [ apply returns_ret | apply returns_getService | apply returns_getPlatform
    | apply returns_modifyService | apply returns_modifyPlatform
    | apply returns_emit
    | apply returns_try_catch; intros ?
    | apply returns_bind; [| intros ?]
    | apply returns_forEach; intros ?
    | match goal with
      | |- returns (match ?x with _ => _ end) => destruct x
      | |- returns (if ?b then _ else _) => destruct b
      end ].

Ltac returning_by known := repeat first [known | returning_step].
Ltac returning := returning_by fail.

Lemma returns_settle (p : nat) (outcome : PromiseState) :
  returns (W := W) (settle p outcome).
Proof. unfold settle. returning. Qed.

Lemma returns_attach (p : nat) (r : Reaction) : returns (W := W) (attach p r).
Proof. unfold attach. returning. Qed.

Lemma returns_stop : returns (W := W) stopLocationTracking.
Proof. unfold stopLocationTracking, Geolocation_clearWatch. returning. Qed.

Lemma returns_start : returns (W := W) startLocationTracking.
Proof.
  unfold startLocationTracking, newPromise, Geolocation_watchPosition.
  returning_by ltac:(apply returns_stop).
Qed.

Lemma returns_initialize_catch (k : nat) (error : JsThrown) :
  returns (W := W) (initialize_catch k error).
Proof.
  unfold initialize_catch, console_error.
  returning_by ltac:(apply returns_settle).
Qed.

Lemma returns_react (r : option Reaction) (outcome : option JsThrown) :
  returns (W := W) (react r outcome).
Proof.
  unfold react, initialize_afterTracking, console_error.
  returning_by ltac:(apply returns_initialize_catch).
Qed.

Lemma returns_call (c : Call) :
  (forall now random36 handler, c <> CAddLocationCallback now random36 handler) ->
  returns (call c).
Proof.
  intros Hc. destruct c; simpl;
    unfold initialize, newPromise, console_warn, removeLocationCallback,
      clearAllCallbacks, cleanup, clearAllCallbacks, removeAppStateListener,
      subscription_remove;
    try (exfalso; eapply Hc; reflexivity);
    returning_by
      ltac:(first [ apply returns_settle | apply returns_start
                  | apply returns_stop ]).
Qed.

Lemma returns_handle (e : Event) :
  (forall now random36 handler,
     e <> Calls (CAddLocationCallback now random36 handler)) ->
  returns (handle e).
Proof.
  intros He.
  destruct e as [c | k answers | w [position | error] | [position | error]
                | nextAppState]; simpl.
  - apply returns_call. intros now random36 handler ->.
    apply (He now random36 handler). reflexivity.
  - unfold requestLocationPermission, initialize_afterPermission, console_warn.
    returning_by ltac:(apply returns_initialize_catch).
  - unfold watch_onPosition, notifyCallbacks, resolve, console_error.
    returning_by ltac:(first [apply returns_settle | apply returns_react]).
  - unfold watch_onError, showLocationError, reject, console_error.
    returning_by ltac:(first [apply returns_settle | apply returns_react]).
  - unfold getCurrentLocation_onPosition. returning.
  - unfold getCurrentLocation_onError, console_error. returning.
  - unfold appStateListener.
    returning_by ltac:(first [apply returns_start | apply returns_attach]).
Qed.

(** X21. What the subscribers' handlers, the permission API and
    [AppState.addEventListener] throw does not escape the service, with
    one exception. While [Geolocation.watchPosition],
    [Geolocation.clearWatch], [subscription.remove] and [Alert.alert]
    return normally, every call ([initialize], [startLocationTracking],
    [stopLocationTracking], [removeLocationCallback],
    [clearAllCallbacks], [cleanup]) and every callback the platform runs
    (the answer to the permission request, the position and the error
    callbacks of a watch and of a one-shot fetch, the lifecycle listener)
    returns normally in every state: a handler that throws during a
    delivery is logged, a failure inside [initialize] becomes the
    rejection of its promise. The exception is [addLocationCallback],
    which throws what the new handler throws when it is called with the
    last known position, and only then. *)
Theorem only_registration_throws (s : World) (e : Event) :
  fst (handle e s)
  = match e with
    | Calls (CAddLocationCallback _ _ handler) =>
        match lastKnownLocation (service s) with
        | Some location =>
            match snd (hrun handler location (client s)) with
            | Some thrown => Threw thrown
            | None => Returned tt
            end
        | None => Returned tt
        end
    | _ => Returned tt
    end.
Proof.
  assert (H : (forall now random36 handler,
                 e <> Calls (CAddLocationCallback now random36 handler)) ->
              fst (handle e s) = Returned tt).
  { intros He. destruct (returns_handle e He s) as ([] & s' & ->). reflexivity. }
  destruct e as [c | k answers | w d | d | nextAppState];
    [destruct c | ..]; try (apply H; discriminate).
  simpl. unfold bind at 1. rewrite addLocationCallback_run.
  destruct (lastKnownLocation (service s)) as [location |]; simpl;
    [| reflexivity].
  destruct (snd (hrun handler location (client s))); reflexivity.
Qed.


(** ** The static fields and the effects, event by event *)

Lemma step_cleanup (s : World) :
  exists pf t,
    step s (Calls CCleanup) = mkWorld initialService pf (client s) (trace s ++ t) /\
    invocations t = [] /\ alerts t = [].
Proof.
  destruct s as [[wid cbs init sub last] pf c t].
  unfold step, handle, call. unfold_cleanup. simpl.
  destruct wid as [w |], sub as [l |]; simpl.
  - exists (uninstallListener l (unregisterWatch w pf)), [GeoClearWatch w].
    repeat split.
  - exists (unregisterWatch w pf), [GeoClearWatch w]. repeat split.
  - exists (uninstallListener l pf), []. rewrite app_nil_r. repeat split.
  - exists pf, []. rewrite app_nil_r. repeat split.
Qed.

Lemma step_position (s : World) (w : nat) (position : GeoPosition) :
  step s (WatchDelivers w (inl position))
  = match assoc w (geoWatches (platform s)) with
    | Some p => snd (watch_onPosition p position s)
    | None => s
    end.
Proof.
  unfold step, handle, bind, getPlatform. simpl.
  destruct (assoc w (geoWatches (platform s))); reflexivity.
Qed.

(** An error delivered by a watch calls no handler. *)
Lemma error_delivery_calls_no_handler (s : World) (w : nat) (error : GeoError) :
  invocations (trace (step s (WatchDelivers w (inr error))))
  = invocations (trace s).
Proof.
  set (I := fun s' : World => invocations (trace s') = invocations (trace s)).
  assert (Hemit : forall ef, (forall h location, ef <> Invoked h location) ->
                    preserves I (emit ef)).
  { intros ef Hef s0 Hi. unfold I, emit. simpl. rewrite invocations_app, Hi.
    destruct ef; simpl; try apply app_nil_r.
    exfalso. apply (Hef handler location). reflexivity. }
  assert (Hkeep : preserves I (handle (WatchDelivers w (inr error))))
    by (apply footprint_error_delivered;
        kept_by ltac:(intros; apply Hemit; discriminate)).
  exact (Hkeep s eq_refl).
Qed.

(** X15. The subscriber list after an event during which no handler is
    called (a handler is client code, and may itself subscribe or
    unsubscribe): a registration appends its entry, a removal drops the
    entries with the given id, [clearAllCallbacks] and [cleanup] empty the
    list, and nothing else changes it: no delivery, no permission answer,
    no lifecycle change, no other call. *)
Theorem subscribers_after_event (s : World) (e : Event) :
  invocations (trace (step s e)) = invocations (trace s) ->
  callbacks (service (step s e))
  = match e with
    | Calls (CAddLocationCallback now random36 handler) =>
        callbacks (service s)
        ++ [mkLocationCallback (toString now ++ substr 2 9 random36) handler]
    | Calls (CRemoveLocationCallback callbackId) =>
        filter (fun item => negb (String.eqb (id item) callbackId))
          (callbacks (service s))
    | Calls CClearAllCallbacks | Calls CCleanup => []
    | _ => callbacks (service s)
    end.
Proof.
  intros _.
  set (I := fun s' : World => callbacks (service s') = callbacks (service s)).
  assert (Hkeep : forall e', preserves I (handle e') ->
                    callbacks (service (step s e')) = callbacks (service s))
    by (intros e' Hm; exact (Hm s eq_refl)).
  destruct e as [c | k answers | w [position | error] | [position | error]
                | nextAppState]; [destruct c | ..].
  - apply Hkeep, footprint_calls_initialize; kept.
  - apply Hkeep, footprint_calls_start; kept.
  - apply Hkeep. simpl. apply footprint_stop; kept.
  - rewrite step_addLocationCallback, addLocationCallback_run.
    destruct (lastKnownLocation (service s)); reflexivity.
  - reflexivity.
  - reflexivity.
  - destruct (step_cleanup s) as (pf & t & -> & _). reflexivity.
  - apply Hkeep, footprint_answered; kept.
  - apply Hkeep, footprint_position_delivered; kept.
  - apply Hkeep, footprint_error_delivered; kept.
  - reflexivity.
  - reflexivity.
  - apply Hkeep, footprint_appState; kept.
Qed.

(** X16. The last known position after an event during which no handler is
    called (a handler is client code, and may itself call [cleanup]): a
    position delivered by a registered watch or by a one-shot fetch
    becomes the last known one, [cleanup] drops it, and nothing else
    changes it: an error, the end of tracking and the delivery of a watch
    that is no longer registered leave the position of before. *)
Theorem lastKnownLocation_after_event (s : World) (e : Event) :
  invocations (trace (step s e)) = invocations (trace s) ->
  lastKnownLocation (service (step s e))
  = match e with
    | WatchDelivers w (inl position) =>
        match assoc w (geoWatches (platform s)) with
        | Some _ => Some (toUserLocation position)
        | None => lastKnownLocation (service s)
        end
    | CurrentPositionDelivers (inl position) => Some (toUserLocation position)
    | Calls CCleanup => None
    | _ => lastKnownLocation (service s)
    end.
Proof.
  intros _.
  set (I := fun s' : World =>
              lastKnownLocation (service s') = lastKnownLocation (service s)).
  assert (Hkeep : forall e', preserves I (handle e') ->
                    lastKnownLocation (service (step s e'))
                    = lastKnownLocation (service s))
    by (intros e' Hm; exact (Hm s eq_refl)).
  destruct e as [c | k answers | w [position | error] | [position | error]
                | nextAppState]; [destruct c | ..].
  - apply Hkeep, footprint_calls_initialize; kept.
  - apply Hkeep, footprint_calls_start; kept.
  - apply Hkeep. simpl. apply footprint_stop; kept.
  - apply Hkeep, footprint_calls_add; kept.
  - reflexivity.
  - reflexivity.
  - destruct (step_cleanup s) as (pf & t & -> & _). reflexivity.
  - apply Hkeep, footprint_answered; kept.
  - rewrite step_position.
    destruct (assoc w (geoWatches (platform s))) as [p |]; [| reflexivity].
    apply watch_onPosition_notifies.
  - apply Hkeep, footprint_error_delivered; kept.
  - reflexivity.
  - reflexivity.
  - apply Hkeep, footprint_appState; kept.
Qed.

Lemma app_same_nil {A} (l m : list A) : l ++ m = l -> m = [].
Proof.
  intros H. apply (app_inv_head l). rewrite app_nil_r. exact H.
Qed.

(** X17. The handler calls of an event. A registration calls the new handler
    with the last known position, when there is one; a position delivered
    by a registered watch calls the handler of every subscriber, in order;
    no other event calls a handler: not an error, not a one-shot fetch,
    not a lifecycle change. And the state of the client changes through
    handler calls only. *)
Theorem handler_calls_of_event (s : World) (e : Event) :
  invocations (trace (step s e))
  = invocations (trace s)
    ++ match e with
       | Calls (CAddLocationCallback _ _ handler) =>
           match lastKnownLocation (service s) with
           | Some location => [(hname handler, location)]
           | None => []
           end
       | WatchDelivers w (inl position) =>
           match assoc w (geoWatches (platform s)) with
           | Some _ =>
               map (fun item => (hname (callback item), toUserLocation position))
                 (callbacks (service s))
           | None => []
           end
       | _ => []
       end /\
  (invocations (trace (step s e)) = invocations (trace s) ->
   client (step s e) = client s).
Proof.
  set (I := fun s' : World =>
              invocations (trace s') = invocations (trace s) /\
              client s' = client s).
  assert (Hkeep : forall e', preserves I (handle e') ->
                    invocations (trace (step s e')) = invocations (trace s) ++ [] /\
                    (invocations (trace (step s e')) = invocations (trace s) ->
                     client (step s e') = client s)).
  { intros e' Hm. destruct (Hm s (conj eq_refl eq_refl)) as [Hi Hc].
    rewrite app_nil_r. split; [exact Hi | intros _; exact Hc]. }
  assert (Hemit : forall ef, (forall h location, ef <> Invoked h location) ->
                    preserves I (emit ef)).
  { intros ef Hef s0 [Hi Hc]. split; [| exact Hc].
    unfold emit. simpl. rewrite invocations_app, Hi.
    destruct ef; simpl; try apply app_nil_r.
    exfalso. apply (Hef handler location). reflexivity. }
  destruct e as [c | k answers | w [position | error] | [position | error]
                | nextAppState]; [destruct c | ..].
  - apply Hkeep, footprint_calls_initialize;
      kept_by ltac:(intros; apply Hemit; discriminate).
  - apply Hkeep, footprint_calls_start;
      kept_by ltac:(intros; apply Hemit; discriminate).
  - apply Hkeep. simpl.
    apply footprint_stop; kept_by ltac:(intros; apply Hemit; discriminate).
  - rewrite step_addLocationCallback, addLocationCallback_run.
    destruct (lastKnownLocation (service s)) as [location |]; simpl.
    + rewrite invocations_app. split; [reflexivity |].
      intros H. apply app_same_nil in H. discriminate H.
    + rewrite app_nil_r. split; [reflexivity | reflexivity].
  - rewrite app_nil_r. split; reflexivity.
  - rewrite app_nil_r. split; reflexivity.
  - destruct (step_cleanup s) as (pf & t & -> & Ht & _). simpl.
    rewrite invocations_app, Ht. split; reflexivity.
  - apply Hkeep, footprint_answered;
      kept_by ltac:(intros; apply Hemit; discriminate).
  - rewrite step_position.
    destruct (assoc w (geoWatches (platform s))) as [p |];
      [| rewrite app_nil_r; split; reflexivity].
    destruct (watch_onPosition_notifies p position s) as (_ & _ & Hi).
    split; [exact Hi |].
    rewrite Hi. intros H. apply app_same_nil in H. apply map_eq_nil in H.
    rewrite watch_onPosition_run.
    match goal with
    | |- context [resolve p ?s1] =>
        destruct (resolve_untouched p s1) as (_ & _ & _ & _ & Hc & _)
    end.
    rewrite Hc. simpl. rewrite H. reflexivity.
  - apply Hkeep, footprint_error_delivered;
      kept_by ltac:(intros; apply Hemit; discriminate).
  - rewrite app_nil_r. split; reflexivity.
  - apply Hkeep, footprint_current_error;
      kept_by ltac:(intros; apply Hemit; discriminate).
  - apply Hkeep, footprint_appState;
      kept_by ltac:(intros; apply Hemit; discriminate).
Qed.

Lemma watch_onPosition_alerts (p : nat) (position : GeoPosition) (s : World) :
  alerts (trace (snd (watch_onPosition p position s))) = alerts (trace s).
Proof.
  rewrite watch_onPosition_run, resolve_alerts. simpl.
  rewrite alerts_app, alerts_notify_trace. apply app_nil_r.
Qed.

Lemma watch_onError_alerts (p : nat) (error : GeoError) (s : World) :
  exists title text,
    alerts (trace (snd (watch_onError p error s)))
    = alerts (trace s) ++ [(title, text)].
Proof.
  rewrite watch_onError_run, reject_alerts.
  unfold showLocationError, emit.
  destruct (type (mapGeolocationError error)); simpl;
    rewrite !alerts_app; simpl; rewrite app_nil_r;
    do 2 eexists; reflexivity.
Qed.

(** X18. The alerts of an event: an error delivered by a registered watch
    shows one alert, and no other event shows any: not a failed one-shot
    fetch, not a denied permission, not a failed [initialize]. *)
Theorem alerts_of_event (s : World) (e : Event) :
  match e with
  | WatchDelivers w (inr error) =>
      match assoc w (geoWatches (platform s)) with
      | Some _ =>
          exists title text,
            alerts (trace (step s e)) = alerts (trace s) ++ [(title, text)]
      | None => alerts (trace (step s e)) = alerts (trace s)
      end
  | _ => alerts (trace (step s e)) = alerts (trace s)
  end.
Proof.
  set (I := fun s' : World => alerts (trace s') = alerts (trace s)).
  assert (Hkeep : forall e', preserves I (handle e') ->
                    alerts (trace (step s e')) = alerts (trace s))
    by (intros e' Hm; exact (Hm s eq_refl)).
  assert (Hemit : forall ef, (forall title text, ef <> Alerted title text) ->
                    preserves I (emit ef)).
  { intros ef Hef s0 Hi. unfold I, emit. simpl. rewrite alerts_app, Hi.
    destruct ef; simpl; try apply app_nil_r.
    exfalso. apply (Hef title text). reflexivity. }
  destruct e as [c | k answers | w [position | error] | [position | error]
                | nextAppState]; [destruct c | ..].
  - apply Hkeep, footprint_calls_initialize;
      kept_by ltac:(intros; apply Hemit; discriminate).
  - apply Hkeep, footprint_calls_start;
      kept_by ltac:(intros; apply Hemit; discriminate).
  - apply Hkeep. simpl.
    apply footprint_stop; kept_by ltac:(intros; apply Hemit; discriminate).
  - rewrite step_addLocationCallback, addLocationCallback_run.
    destruct (lastKnownLocation (service s)) as [location |]; simpl;
      [| reflexivity].
    rewrite alerts_app. apply app_nil_r.
  - reflexivity.
  - reflexivity.
  - destruct (step_cleanup s) as (pf & t & -> & _ & Ht). simpl.
    rewrite alerts_app, Ht. apply app_nil_r.
  - apply Hkeep, footprint_answered;
      kept_by ltac:(intros; apply Hemit; discriminate).
  - rewrite step_position.
    destruct (assoc w (geoWatches (platform s))) as [p |]; [| reflexivity].
    apply watch_onPosition_alerts.
  - unfold step, handle, bind, getPlatform. simpl.
    destruct (assoc w (geoWatches (platform s))) as [p |]; [| reflexivity].
    apply watch_onError_alerts.
  - reflexivity.
  - apply Hkeep, footprint_current_error;
      kept_by ltac:(intros; apply Hemit; discriminate).
  - apply Hkeep, footprint_appState;
      kept_by ltac:(intros; apply Hemit; discriminate).
Qed.

Lemma initialized_afterTracking (k : nat) :
  preserves (fun s => isInitialized (service s) = true)
    (initialize_afterTracking k None).
Proof.
  intros s. unfold_service. cases; intros H; first [exact H | reflexivity].
Qed.

(** X19. The initialized flag after an event during which no handler is
    called (a handler is client code, and may itself call [cleanup]):
    [cleanup] resets it, a position delivered by a watch may set it (when
    it completes a call of [initialize]) and does not reset it, and no
    other event changes it: in particular the flag is not set before a
    position was delivered. *)
Theorem isInitialized_after_event (s : World) (e : Event) :
  invocations (trace (step s e)) = invocations (trace s) ->
  match e with
  | Calls CCleanup => isInitialized (service (step s e)) = false
  | WatchDelivers _ (inl _) =>
      isInitialized (service s) = true ->
      isInitialized (service (step s e)) = true
  | _ => isInitialized (service (step s e)) = isInitialized (service s)
  end.
Proof.
  intros _.
  set (I := fun s' : World => isInitialized (service s') = isInitialized (service s)).
  assert (Hkeep : forall e', preserves I (handle e') ->
                    isInitialized (service (step s e')) = isInitialized (service s))
    by (intros e' Hm; exact (Hm s eq_refl)).
  destruct e as [c | k answers | w [position | error] | [position | error]
                | nextAppState]; [destruct c | ..].
  - apply Hkeep, footprint_calls_initialize; kept.
  - apply Hkeep, footprint_calls_start; kept.
  - apply Hkeep. simpl. apply footprint_stop; kept.
  - apply Hkeep, footprint_calls_add; kept.
  - reflexivity.
  - reflexivity.
  - destruct (step_cleanup s) as (pf & t & -> & _). reflexivity.
  - apply Hkeep, footprint_answered; kept.
  - intros Hi. clear Hkeep. clear I. revert s Hi.
    change (preserves (fun s : World => isInitialized (service s) = true)
              (handle (WatchDelivers w (inl position)))).
    apply footprint_position_delivered;
      kept_by ltac:(apply initialized_afterTracking).
  - apply Hkeep, footprint_error_delivered; kept.
  - reflexivity.
  - reflexivity.
  - apply Hkeep, footprint_appState; kept.
Qed.


Lemma attach_service (p : nat) (r : Reaction) (s : World) :
  exists pf,
    attach p r s = (Returned tt, mkWorld (service s) pf (client s) (trace s)).
Proof.
  destruct s as [sv pf c t]. unfold attach. unfold_m. simpl.
  destruct (assoc p (promises pf)) as [[st r0] |]; simpl;
    eexists; reflexivity.
Qed.

(** X23. [watchId] after an event during which no handler is called (a
    handler is client code, and may itself start or stop tracking).
    [startLocationTracking] stores the
    handle of the watch it registers; [stopLocationTracking] and
    [cleanup] store null; the answer to the permission request of a
    pending call of [initialize] stores a new handle when the permission
    is granted and leaves the field as it is otherwise; the lifecycle
    change to ['active'] stores a new handle when the service is
    initialized and holds no watch (and a listener is installed), and no
    other lifecycle change does anything. Nothing else changes the field:
    in particular an error delivered by a watch leaves the watch stored,
    and so do a position, a registration and a call of [initialize]. *)
Theorem watchId_after_event (s : World) (e : Event) :
  invocations (trace (step s e)) = invocations (trace s) ->
  watchId (service (step s e))
  = match e with
    | Calls CStartLocationTracking => Some (nextWatch (platform s))
    | Calls CStopLocationTracking | Calls CCleanup => None
    | PermissionAnswered k answers =>
        if existsb (Nat.eqb k) (permissionPending (platform s)) then
          match fst (requestLocationPermission answers s) with
          | Returned true => Some (nextWatch (platform s))
          | _ => watchId (service s)
          end
        else watchId (service s)
    | AppStateChanges nextAppState =>
        if String.eqb nextAppState "active" && isInitialized (service s)
           && match watchId (service s) with None => true | Some _ => false end
           && match appStateListeners (platform s) with [] => false | _ => true end
        then Some (nextWatch (platform s))
        else watchId (service s)
    | _ => watchId (service s)
    end.
Proof.
  intros _.
  set (I := fun s' : World => watchId (service s') = watchId (service s)).
  assert (Hkeep : forall e', preserves I (handle e') ->
                    watchId (service (step s e')) = watchId (service s))
    by (intros e' Hm; exact (Hm s eq_refl)).
  destruct e as [c | k answers | w [position | error] | [position | error]
                | nextAppState]; [destruct c | ..].
  - apply Hkeep, footprint_calls_initialize; kept.
  - unfold step, handle, call. unfold bind at 1.
    destruct (watchId (service s)) as [w |] eqn:Hw.
    + rewrite (startLocationTracking_some _ _ Hw). reflexivity.
    + rewrite (startLocationTracking_none _ Hw). reflexivity.
  - unfold step, handle, call.
    destruct (watchId (service s)) as [w |] eqn:Hw.
    + rewrite (stopLocationTracking_some _ _ Hw). reflexivity.
    + rewrite (stopLocationTracking_none _ Hw). exact Hw.
  - apply Hkeep, footprint_calls_add; kept.
  - reflexivity.
  - reflexivity.
  - destruct (step_cleanup s) as (pf & t & -> & _). reflexivity.
  - unfold step, handle. unfold bind at 1. unfold getPlatform at 1.
    cbn [fst snd].
    destruct (existsb (Nat.eqb k) (permissionPending (platform s)));
      [| reflexivity].
    unfold bind at 1. unfold modifyPlatform at 1. unfold bind at 1.
    destruct (requestLocationPermission_run answers s) as (b & t & _ & Hrun).
    rewrite (Hrun s eq_refl). rewrite Hrun by reflexivity.
    cbn [fst service platform client trace].
    set (s2 := mkWorld _ _ _ _).
    destruct b.
    + unfold initialize_afterPermission, try_catch. unfold bind at 1.
      assert (Hstart : exists pf t',
                startLocationTracking s2
                = (Returned (nextPromise (platform s)),
                   mkWorld (set_watchId (Some (nextWatch (platform s))) (service s))
                     pf (client s) t')).
      { destruct (watchId (service s)) as [w |] eqn:Hw.
        - rewrite (startLocationTracking_some s2 w Hw). do 2 eexists. reflexivity.
        - rewrite (startLocationTracking_none s2 Hw). do 2 eexists. reflexivity. }
      destruct Hstart as (pf & t' & ->).
      match goal with
      | |- context [attach ?p ?r ?s3] =>
          destruct (attach_service p r s3) as (pf' & ->)
      end.
      reflexivity.
    + assert (Hc : preserves I
                     (initialize_catch k (ThrownError "Location permission denied")))
        by (apply footprint_initialize_catch; kept).
      exact (Hc s2 eq_refl).
  - apply Hkeep, footprint_position_delivered; kept.
  - apply Hkeep, footprint_error_delivered; kept.
  - reflexivity.
  - reflexivity.
  - destruct (String.eqb_spec nextAppState "active") as [-> | Hn].
    + destruct (isInitialized (service s)) eqn:Hi.
      * destruct (watchId (service s)) as [w |] eqn:Hw.
        -- unfold step, handle, bind, getPlatform.
           rewrite forEach_appStateListener_ignored; [simpl; exact Hw |].
           right. right. rewrite Hw. discriminate.
        -- destruct (appStateListeners (platform s)) as [| l rest] eqn:Hl.
           ++ unfold step, handle, bind, getPlatform. rewrite Hl. simpl.
              exact Hw.
           ++ rewrite foreground_step; [reflexivity | exact Hi | exact Hw |].
              rewrite Hl. discriminate.
      * unfold step, handle, bind, getPlatform.
        rewrite forEach_appStateListener_ignored; [reflexivity |].
        right. left. exact Hi.
    + unfold step, handle, bind, getPlatform.
      rewrite forEach_appStateListener_ignored; [reflexivity |].
      left. exact Hn.
Qed.


(** ** Without subscribers *)



End Properties.

(** * The theorems at concrete inputs *)

Lemma tracking_reachable : reachable tracking.
Proof.
  exists ios, None, tt,
    [Calls (CAddLocationCallback 1700000000000 "0.4fzyo82mvyr" (quiet 1));
     Calls CInitialize;
     PermissionAnswered 0 granted;
     WatchDelivers 0 (inl fix0)].
  reflexivity.
Defined.

Example tracking_state :
  service tracking
  = mkService (Some 0)
      [mkLocationCallback "17000000000004fzyo82mv" (quiet 1)]
      true (Some 0) (Some (toUserLocation fix0)) /\
  invocations (trace tracking) = [(1, toUserLocation fix0)] /\
  promiseState 0 tracking = Some Resolved.
Proof. repeat split. Qed.

Lemma at_most_one_watch_witness :
  reachable tracking /\ one_watch tracking.
Proof.
  split; [exact tracking_reachable |].
  exact (proj1 (at_most_one_watch unit tracking tracking_reachable)).
Defined.

(** [initialize] in a fresh process, permission granted, first delivery
    an error: the call fails, and the watch it registered is still
    registered and still stored in [watchId], so the state is not the one
    before the call. *)
Lemma initialize_failure_keeps_watch :
  promiseState 0 failedInitialize
    = Some (Rejected (ThrownLocationError
              (mkLocationError LOCATION_UNAVAILABLE "Location unavailable"
                 (Some 2%Z)))) /\
  isInitialized (service failedInitialize) = false /\
  watchId (service world0) = None /\
  watchId (service failedInitialize) = Some 0 /\
  activeWatches failedInitialize = [0] /\
  service failedInitialize <> service world0.
Proof.
  repeat split.
  intros H.
  assert (E : watchId (service failedInitialize) = watchId (service world0))
    by (rewrite H; reflexivity).
  discriminate E.
Qed.

Lemma initialize_fails_closed_witness :
  isInitialized (service world0) = false /\
  fst (requestLocationPermission granted world0) = Returned true /\
  one_watch world0 /\
  watchId
    (service
       (run [Calls CInitialize;
             PermissionAnswered (nextPromise (platform world0)) granted;
             WatchDelivers (nextWatch (platform world0)) (inr gpsOff)]
          world0))
  = Some (nextWatch (platform world0)).
Proof.
  assert (Hi : isInitialized (service world0) = false) by reflexivity.
  assert (Hb : fst (requestLocationPermission granted world0) = Returned true)
    by reflexivity.
  assert (H : one_watch world0) by reflexivity.
  split; [exact Hi | split; [exact Hb | split; [exact H |]]].
  destruct (proj1 (proj2 (proj2 (initialize_fails_closed unit world0 granted) Hi) Hb H)
              gpsOff)
    as (_ & _ & _ & _ & _ & Hw & _).
  exact Hw.
Defined.

(** A denied permission, on the other hand, leaves the static fields as
    they were. *)
Example initialize_denied :
  promiseState 0 (run [Calls CInitialize; PermissionAnswered 0 refused] world0)
    = Some (Rejected (ThrownError "Location permission denied")) /\
  service (run [Calls CInitialize; PermissionAnswered 0 refused] world0)
    = initialService /\
  trace (run [Calls CInitialize; PermissionAnswered 0 refused] world0)
    = [ConsoleWarn [LogText "iOS location permission denied:";
                    LogGeoError (mkGeoError (Some 1%Z) None)];
       ConsoleError [LogText "Failed to initialize LocationService:";
                     LogThrown (ThrownError "Location permission denied")]].
Proof. repeat split. Qed.

(** Two registrations in the same millisecond whose random draws differ
    only after the ninth base-36 digit receive the same id; removing by
    that id removes both. *)
Lemma subscription_ids_collide :
  fst firstRegistration = Returned "17000000000004fzyo82mv" /\
  fst secondRegistration = Returned "17000000000004fzyo82mv" /\
  map (fun item => hname (callback item))
      (callbacks (service (snd secondRegistration))) = [1; 2] /\
  callbacks
    (service (snd (removeLocationCallback "17000000000004fzyo82mv"
                     (snd secondRegistration)))) = [].
Proof. repeat split. Qed.

Lemma subscription_ids_equal_iff_witness :
  fst (addLocationCallback 1700000000000 "0.4fzyo82mvyr" (quiet 1) world0)
    = Returned "17000000000004fzyo82mv" /\
  fst (addLocationCallback 1700000000001 "0.4fzyo82mvyr" (quiet 2) world0)
    = Returned "17000000000014fzyo82mv" /\
  String.length (toString 1700000000000) = String.length (toString 1700000000001) /\
  ("17000000000004fzyo82mv" = "17000000000014fzyo82mv" <->
   1700000000000%Z = 1700000000001%Z /\
   substr 2 9 "0.4fzyo82mvyr" = substr 2 9 "0.4fzyo82mvyr").
Proof.
  assert (H1 : fst (addLocationCallback 1700000000000 "0.4fzyo82mvyr" (quiet 1) world0)
               = Returned "17000000000004fzyo82mv") by reflexivity.
  assert (H2 : fst (addLocationCallback 1700000000001 "0.4fzyo82mvyr" (quiet 2) world0)
               = Returned "17000000000014fzyo82mv") by reflexivity.
  assert (H3 : String.length (toString 1700000000000)
               = String.length (toString 1700000000001)) by reflexivity.
  split; [exact H1 | split; [exact H2 | split; [exact H3 |]]].
  exact (proj2 (proj2 (subscription_ids_equal_iff unit _ _ _ _ _ _ _ _ _ _ H1 H2 H3))).
Defined.



Lemma first_delivery_unavailable_witness :
  error_code gpsOff = Some 2%Z /\
  one_watch world0 /\
  fst (startLocationTracking world0) = Returned (nextPromise (platform world0)) /\
  assoc 0 (geoWatches (platform started)) = Some 0 /\
  assoc 0 (promises (platform started)) = Some (Pending, Unobserved) /\
  promiseState 0 (step started (WatchDelivers 0 (inr gpsOff)))
  = Some (Rejected (ThrownLocationError
            (mkLocationError LOCATION_UNAVAILABLE "Location unavailable"
               (Some 2%Z)))).
Proof.
  assert (Hc : error_code gpsOff = Some 2%Z) by reflexivity.
  assert (H : one_watch world0) by reflexivity.
  assert (Hw : assoc 0 (geoWatches (platform started)) = Some 0) by reflexivity.
  assert (Hp : assoc 0 (promises (platform started)) = Some (Pending, Unobserved))
    by reflexivity.
  split; [exact Hc | split; [exact H | split; [| split; [exact Hw | split; [exact Hp |]]]]].
  - exact (proj1 (proj1 (first_delivery_unavailable unit world0 gpsOff Hc) H)).
  - exact (proj1 (proj2 (first_delivery_unavailable unit started gpsOff Hc)
                    0 0 Unobserved Hw Hp)).
Defined.

Lemma addLocationCallback_throwing_handler_witness :
  lastKnownLocation (service tracking) = Some (toUserLocation fix0) /\
  snd (hrun (faulty 7) (toUserLocation fix0) (client tracking))
    = Some (ThrownError "handler failed") /\
  fst (addLocationCallback 1700000000005 "0.zk3x9q0c1ab" (faulty 7) tracking)
    = Threw (ThrownError "handler failed").
Proof.
  assert (Hl : lastKnownLocation (service tracking) = Some (toUserLocation fix0))
    by reflexivity.
  assert (He : snd (hrun (faulty 7) (toUserLocation fix0) (client tracking))
               = Some (ThrownError "handler failed")) by reflexivity.
  split; [exact Hl | split; [exact He |]].
  exact (proj1 (addLocationCallback_throwing_handler unit 1700000000005
                  "0.zk3x9q0c1ab" (faulty 7) tracking (toUserLocation fix0)
                  (ThrownError "handler failed") Hl He)).
Defined.

Lemma notifyCallbacks_each_once_in_order_witness :
  assoc 0 (geoWatches (platform tracking)) = Some 1 /\
  invocations
    (trace (step (run (subscribeAll latecomers) tracking)
              (WatchDelivers 0 (inl fix0))))
  = invocations (trace (run (subscribeAll latecomers) tracking))
    ++ map (fun item => (hname (callback item), toUserLocation fix0))
         (callbacks (service tracking))
    ++ map (fun r => (hname (snd r), toUserLocation fix0)) latecomers.
Proof.
  assert (Hw : assoc 0 (geoWatches (platform tracking)) = Some 1) by reflexivity.
  split; [exact Hw |].
  exact (proj1 (proj2 (proj2 (notifyCallbacks_each_once_in_order unit
                                (toUserLocation fix0) tracking)
                         latecomers 0 1 fix0 Hw))).
Defined.

(** With handlers that count their calls in the client state: one
    fan-out over three subscribers, the second of which throws, counts
    three calls. *)
Example fan_out_runs_every_handler :
  client counted = 0 /\
  notifyCallbacks (toUserLocation fix0) counted
  = (Returned tt,
     mkWorld (service counted) (platform counted) 3
       [Invoked 1 (toUserLocation fix0);
        Invoked 2 (toUserLocation fix0);
        ConsoleError [LogText "Error in location callback:";
                      LogThrown (ThrownError "handler failed")];
        Invoked 3 (toUserLocation fix0)]).
Proof. split; reflexivity. Qed.

(** The same delivery, effect by effect: the two late registrations were
    answered with the last known position at once; at the delivery the
    handler that throws is followed by its console error and by the call
    of the next handler. *)
Example delivery_with_failing_handler :
  trace (step (run (subscribeAll latecomers) tracking)
           (WatchDelivers 0 (inl fix0)))
  = [GeoWatchPosition 0;
     Invoked 1 (toUserLocation fix0);
     Invoked 2 (toUserLocation fix0);
     Invoked 3 (toUserLocation fix0);
     Invoked 1 (toUserLocation fix0);
     Invoked 2 (toUserLocation fix0);
     ConsoleError [LogText "Error in location callback:";
                   LogThrown (ThrownError "handler failed")];
     Invoked 3 (toUserLocation fix0)].
Proof. reflexivity. Qed.

(** The one-shot fetch: the position delivered is the result and becomes
    the last known position. *)
Example current_position_scenario :
  fst (getCurrentLocation_onPosition fix0 world0)
    = Returned (inl (toUserLocation fix0)) /\
  fst (getLastKnownLocation (snd (getCurrentLocation_onPosition fix0 world0)))
    = Returned (Some (toUserLocation fix0)).
Proof. split; reflexivity. Qed.

(** The lifecycle listener: when the application becomes active while the
    initialized service has no watch, tracking starts again, with a new
    handle; in the background nothing happens. *)
Example foreground_restarts_tracking :
  watchId (service (run [Calls CStopLocationTracking;
                         AppStateChanges "background"] tracking)) = None /\
  watchId (service (run [Calls CStopLocationTracking;
                         AppStateChanges "background";
                         AppStateChanges "active"] tracking)) = Some 1 /\
  activeWatches (run [Calls CStopLocationTracking;
                      AppStateChanges "background";
                      AppStateChanges "active"] tracking) = [1].
Proof. repeat split. Qed.

(** ** Subscriptions, the lifecycle and the invariants at concrete inputs *)

Lemma removeLocationCallback_idempotent_witness :
  (forall item, In item (callbacks (service (snd firstRegistration))) ->
                id item <> "nobody") /\
  snd (removeLocationCallback "nobody" (snd firstRegistration))
  = snd firstRegistration.
Proof.
  assert (H : forall item, In item (callbacks (service (snd firstRegistration))) ->
                           id item <> "nobody").
  { intros item [<- | []]. discriminate. }
  split; [exact H |].
  exact (proj2 (proj2 (proj2 (removeLocationCallback_idempotent unit "nobody"
                                (snd firstRegistration)))) H).
Defined.


Lemma unsubscribed_handlers_not_called_witness :
  assoc 0 (geoWatches (platform tracking)) = Some 1 /\
  invocations
    (trace (run [Calls (CRemoveLocationCallback "17000000000004fzyo82mv");
                 WatchDelivers 0 (inl fix0)] tracking))
  = invocations (trace tracking)
    ++ map (fun item => (hname (callback item), toUserLocation fix0))
         (filter (fun item => negb (String.eqb (id item) "17000000000004fzyo82mv"))
            (callbacks (service tracking))).
Proof.
  assert (Hw : assoc 0 (geoWatches (platform tracking)) = Some 1) by reflexivity.
  split; [exact Hw |].
  exact (proj1 (unsubscribed_handlers_not_called unit "17000000000004fzyo82mv"
                  tracking 0 1 fix0 Hw)).
Defined.

(** The subscriber removed is not called any more. *)
Example removed_subscriber_is_silent :
  invocations
    (trace (run [Calls (CRemoveLocationCallback "17000000000004fzyo82mv");
                 WatchDelivers 0 (inl fix0)] tracking))
  = [(1, toUserLocation fix0)] /\
  invocations (trace (run [WatchDelivers 0 (inl fix0)] tracking))
  = [(1, toUserLocation fix0); (1, toUserLocation fix0)].
Proof. split; reflexivity. Qed.

Lemma first_position_fulfils_witness :
  assoc 0 (geoWatches (platform started)) = Some 0 /\
  assoc 0 (promises (platform started)) = Some (Pending, Unobserved) /\
  promiseState 0 (step started (WatchDelivers 0 (inl fix0))) = Some Resolved.
Proof.
  assert (Hw : assoc 0 (geoWatches (platform started)) = Some 0) by reflexivity.
  assert (Hp : assoc 0 (promises (platform started)) = Some (Pending, Unobserved))
    by reflexivity.
  split; [exact Hw | split; [exact Hp |]].
  exact (proj1 (first_position_fulfils unit started 0 0 Unobserved fix0 Hw Hp)).
Defined.


Lemma appState_change_ignored_witness :
  ("background" <> "active" \/ isInitialized (service tracking) = false
   \/ watchId (service tracking) <> None) /\
  handle (AppStateChanges "background") tracking = (Returned tt, tracking).
Proof.
  assert (H : "background" <> "active" \/ isInitialized (service tracking) = false
              \/ watchId (service tracking) <> None)
    by (left; discriminate).
  split; [exact H |].
  exact (appState_change_ignored unit "background" tracking H).
Defined.

Lemma foreground_restarts_once_witness :
  isInitialized (service stopped) = true /\
  watchId (service stopped) = None /\
  one_watch stopped /\
  appStateListeners (platform stopped) <> [] /\
  service (step stopped (AppStateChanges "active"))
  = set_watchId (Some (nextWatch (platform stopped))) (service stopped).
Proof.
  assert (Hi : isInitialized (service stopped) = true) by reflexivity.
  assert (Hw : watchId (service stopped) = None) by reflexivity.
  assert (H1 : one_watch stopped) by reflexivity.
  assert (Hl : appStateListeners (platform stopped) <> []) by discriminate.
  split; [exact Hi | split; [exact Hw | split; [exact H1 | split; [exact Hl |]]]].
  exact (proj1 (foreground_restarts_once unit stopped Hi Hw H1 Hl)).
Defined.


Lemma lifecycle_consistent_always_witness :
  reachable tracking /\
  (isInitialized (service tracking) = true <->
   appStateSubscription (service tracking) <> None) /\
  forall l, appStateSubscription (service tracking) = Some l ->
            In l (appStateListeners (platform tracking)).
Proof.
  split; [exact tracking_reachable |].
  exact (lifecycle_consistent_always unit tracking tracking_reachable).
Defined.


(** The new call of [initialize] completes, and the subscriber of before
    [cleanup] is not told. *)
Example initialized_again :
  isInitialized (service (run again cleaned)) = true /\
  invocations (trace (run again cleaned)) = [(1, toUserLocation fix0)].
Proof. split; reflexivity. Qed.

Lemma subscribers_after_event_witness :
  invocations (trace (step tracking (WatchDelivers 0 (inr gpsOff))))
    = invocations (trace tracking) /\
  callbacks (service (step tracking (WatchDelivers 0 (inr gpsOff))))
    = callbacks (service tracking).
Proof.
  split; [exact (error_delivery_calls_no_handler unit tracking 0 gpsOff) |].
  exact (subscribers_after_event unit tracking (WatchDelivers 0 (inr gpsOff))
           (error_delivery_calls_no_handler unit tracking 0 gpsOff)).
Defined.

Lemma lastKnownLocation_after_event_witness :
  invocations (trace (step tracking (WatchDelivers 0 (inr gpsOff))))
    = invocations (trace tracking) /\
  lastKnownLocation (service (step tracking (WatchDelivers 0 (inr gpsOff))))
    = lastKnownLocation (service tracking).
Proof.
  split; [exact (error_delivery_calls_no_handler unit tracking 0 gpsOff) |].
  exact (lastKnownLocation_after_event unit tracking (WatchDelivers 0 (inr gpsOff))
           (error_delivery_calls_no_handler unit tracking 0 gpsOff)).
Defined.

Lemma isInitialized_after_event_witness :
  invocations (trace (step tracking (WatchDelivers 0 (inr gpsOff))))
    = invocations (trace tracking) /\
  isInitialized (service (step tracking (WatchDelivers 0 (inr gpsOff))))
    = isInitialized (service tracking).
Proof.
  split; [exact (error_delivery_calls_no_handler unit tracking 0 gpsOff) |].
  exact (isInitialized_after_event unit tracking (WatchDelivers 0 (inr gpsOff))
           (error_delivery_calls_no_handler unit tracking 0 gpsOff)).
Defined.

Lemma watchId_after_event_witness :
  invocations (trace (step tracking (WatchDelivers 0 (inr gpsOff))))
    = invocations (trace tracking) /\
  watchId (service (step tracking (WatchDelivers 0 (inr gpsOff))))
    = watchId (service tracking).
Proof.
  split; [exact (error_delivery_calls_no_handler unit tracking 0 gpsOff) |].
  exact (watchId_after_event unit tracking (WatchDelivers 0 (inr gpsOff))
           (error_delivery_calls_no_handler unit tracking 0 gpsOff)).
Defined.

Lemma fetchNearbyUsers_outcome_witness :
  failingBackend nearby = inr (ThrownError "") /\
  snd (fetchNearbyUsers failingBackend nearby) = RejectedWithValue "".
Proof.
  assert (H : failingBackend nearby = inr (ThrownError "")) by reflexivity.
  split; [exact H |].
  exact (proj1 (proj2 (proj2 (fetchNearbyUsers_outcome failingBackend nearby)
                         (ThrownError "") H))
           "" eq_refl).
Defined.

